(** * XmlBeautify (domutils.js): a shallow embedding and its properties

    The development follows [assets/js/domutils.js] of the DSS editor:
    the declaration detector ([hasXmlDef], [getEncoding]), the entry point
    [beautify] and the recursive renderer [_parseInternally].

    Conventions of the embedding.
    - A JavaScript string is a [string]; the texts handled here are ASCII,
      so a character is one code unit.  Positions and lengths are [Z], as
      [indexOf] answers [-1] when the pattern is absent.
    - The DOM is a host object: a node is the record of what its accessors
      answer, [None] standing for [undefined].  [textContent] is a string:
      the nodes described are elements and character data.  A node whose
      [textContent] is null (a document type declaration standing first
      among the [childNodes] of the document) is not described; line 195
      throws on it.
    - [indentLevel] is a number of the host that only counts nesting.  In
      [_parseInternally] it is counted in integers.  [Double._parseInternally]
      is the same function with the counting of lines 234-236, 267 and 279
      in the arithmetic of the host; the two agree as long as the depth
      stays within [Double.MAX_SAFE_INTEGER], which holds every depth the
      entry point reaches.
    - [buildInfo] is mutated in place by the source; here it is passed and
      returned.  A [TypeError] thrown by the source is the result [None]. *)

From Stdlib Require Import String Ascii List ZArith Bool Lia.
Import ListNotations.

Open Scope string_scope.
Open Scope Z_scope.

(** ** String primitives of the host language *)

Module JS.

(** The characters that cannot be typed inside a literal. *)
Definition DQ : string := String "034"%char EmptyString.
Definition LF : string := String "010"%char EmptyString.
Definition CR : string := String "013"%char EmptyString.
Definition TAB : string := String "009"%char EmptyString.

Definition length (s : string) : Z := Z.of_nat (String.length s).

(** [s.indexOf(pattern)]: first position of [pattern], or [-1]. *)
Definition indexOf (s pattern : string) : Z :=
  match String.index 0 pattern s with
  | Some n => Z.of_nat n
  | None => -1
  end.

(** [s.substr(start, len)]: a negative [start] counts from the end, and
    both bounds are clamped to the string. *)
Definition substr (s : string) (start len : Z) : string :=
  let size := length s in
  let from := if start <? 0 then Z.max (size + start) 0 else Z.min start size in
  let count := Z.min (Z.max len 0) (size - from) in
  String.substring (Z.to_nat from) (Z.to_nat count) s.

Definition lowerChar (c : ascii) : ascii :=
  let n := nat_of_ascii c in
  if ((65 <=? n) && (n <=? 90))%nat then ascii_of_nat (n + 32) else c.

Fixpoint toLowerCase (s : string) : string :=
  match s with
  | EmptyString => EmptyString
  | String c r => String (lowerChar c) (toLowerCase r)
  end.

(** [s.replace(/c/g, '')] for a one-character pattern. *)
Fixpoint removeChar (c : ascii) (s : string) : string :=
  match s with
  | EmptyString => EmptyString
  | String d r => if Ascii.eqb d c then removeChar c r else String d (removeChar c r)
  end.

(** [s.replace(/\r?\n/g, '')]: a line feed goes, with the carriage return
    just before it when there is one; a lone carriage return stays. *)
Fixpoint removeNewlines (s : string) : string :=
  match s with
  | EmptyString => EmptyString
  | String c r =>
      if Ascii.eqb c "010" then removeNewlines r
      else if Ascii.eqb c "013" then
        match r with
        | String d r' =>
            if Ascii.eqb d "010" then removeNewlines r' else String c (removeNewlines r)
        | EmptyString => String c EmptyString
        end
      else String c (removeNewlines r)
  end.

(** Truthiness of a string value. *)
Definition truthy (s : string) : bool := negb (length s =? 0).

End JS.

(** ** The DOM as the renderer sees it *)

Module Attr.
Record t := mk { name : string; textContent : string }.
End Attr.

#[warnings="-register-all"]
Inductive Node := mkNode {
  textContent : string;
  children : option (list Node);
  childNodes : option (list Node);
  tagName : option string;
  attributes : option (list Attr.t);
  innerHTML : option string
}.

Record Document := mkDocument {
  doc_children : option (list Node);
  doc_childNodes : option (list Node)
}.

(** ** The builder state *)

Record BuildInfo := mkBuildInfo {
  indentText : string;
  xmlText : string;
  useSelfClosingElement : bool;
  indentLevel : Z
}.

(** [buildInfo.xmlText += s] *)
Definition emit (s : string) (b : BuildInfo) : BuildInfo :=
  {| indentText := indentText b;
     xmlText := xmlText b ++ s;
     useSelfClosingElement := useSelfClosingElement b;
     indentLevel := indentLevel b |}.

(** [buildInfo.indentLevel++] and [buildInfo.indentLevel--] *)
Definition shiftLevel (d : Z) (b : BuildInfo) : BuildInfo :=
  {| indentText := indentText b;
     xmlText := xmlText b;
     useSelfClosingElement := useSelfClosingElement b;
     indentLevel := indentLevel b + d |}.

(** ** Declaration detector *)

Definition hasXmlDef (xmlText : string) : bool :=
  JS.indexOf xmlText "<?xml" >=? 0.

Definition getEncoding (xmlText : string) : option string :=
  if negb (hasXmlDef xmlText) then None
  else
    let marker := "encoding=" ++ JS.DQ in
    let encodingStartPos := JS.indexOf (JS.toLowerCase xmlText) marker + JS.length marker in
    let encodingEndPos := JS.indexOf xmlText (JS.DQ ++ "?>") in
    let encoding := JS.substr xmlText encodingStartPos (encodingEndPos - encodingStartPos) in
    Some encoding.

(** ** Classification of an element (lines 193-204) *)

Definition blankReplaced (s : string) : string :=
  JS.removeChar "009"
    (JS.removeChar "010" (JS.removeNewlines (JS.removeChar " " s))).

(** [elementTextContent] after the reset of line 197. *)
Definition elementTextContent (element : Node) : string :=
  if JS.length (blankReplaced (textContent element)) =? 0 then ""
  else textContent element.

(** [x != undefined && x.length > 0] *)
Definition reportsSome (x : option (list Node)) : bool :=
  match x with
  | Some l => Z.of_nat (List.length l) >? 0
  | None => false
  end.

Definition elementHasNoChildren (element : Node) : bool :=
  negb (reportsSome (children element)) || negb (reportsSome (childNodes element)).

Definition elementHasValueOrChildren (element : Node) : bool :=
  JS.truthy (elementTextContent element)
  && (JS.length (elementTextContent element) >? 0).

Definition elementHasItsValue (element : Node) : bool :=
  elementHasNoChildren element && elementHasValueOrChildren element.

Definition isEmptyElement (element : Node) : bool :=
  elementHasNoChildren element && negb (elementHasValueOrChildren element).

Definition CDATA_OPEN : string := "<![CDATA[".
Definition CDATA_CLOSE : string := "]]>".

(** [val] of lines 218-221: the inner markup, or the text content when the
    host has no [innerHTML]. *)
Definition innerMarkup (element : Node) : string :=
  match innerHTML element with
  | Some val => val
  | None => textContent element
  end.

Definition hasCDataMarkers (val : string) : bool :=
  negb (JS.indexOf val CDATA_OPEN =? -1) && negb (JS.indexOf val CDATA_CLOSE =? -1).

(** [valueOfElement] of lines 214-228. *)
Definition valueOfElement (element : Node) : string :=
  if elementHasItsValue element then
    if hasCDataMarkers (innerMarkup element)
    then CDATA_OPEN ++ elementTextContent element ++ CDATA_CLOSE
    else elementTextContent element
  else "".

(** ** The recursive renderer *)

(** The loop of lines 234-236, run [n] times. *)
Fixpoint repeatIndent (unit : string) (n : nat) : string :=
  match n with
  | O => ""
  | S k => repeatIndent unit k ++ unit
  end.

(** One turn of the attribute loop (line 245). *)
Definition attributeText (attr : Attr.t) : string :=
  " " ++ Attr.name attr ++ "=" ++ JS.DQ ++ Attr.textContent attr ++ JS.DQ.

Definition emitAttributes (attrs : option (list Attr.t)) (b : BuildInfo) : BuildInfo :=
  match attrs with
  | Some l => fold_left (fun b attr => emit (attributeText attr) b) l b
  | None => b
  end.

Definition endTagOf (tag : string) : string := "</" ++ tag ++ ">".

Fixpoint _parseInternally (element : Node) (buildInfo : BuildInfo) {struct element}
  : option BuildInfo :=
  let selfClosing := useSelfClosingElement buildInfo in
  let indentText' :=
    repeatIndent (indentText buildInfo) (Z.to_nat (indentLevel buildInfo)) in
  let buildInfo := emit indentText' buildInfo in
  match tagName element with
  | None => Some buildInfo
  | Some tag =>
      let buildInfo := emit ("<" ++ tag) buildInfo in
      let buildInfo := emitAttributes (attributes element) buildInfo in
      let buildInfo :=
        if isEmptyElement element && selfClosing
        then emit " />" buildInfo
        else emit ">" buildInfo in
      let buildInfo :=
        if elementHasItsValue element then emit (valueOfElement element) buildInfo
        else if isEmptyElement element && negb selfClosing then buildInfo
        else emit JS.LF buildInfo in
      let buildInfo := shiftLevel 1 buildInfo in
      let each :=
        fix each (chElements : list Node) (b : BuildInfo) {struct chElements}
          : option BuildInfo :=
          match chElements with
          | [] => Some b
          | child :: rest =>
              match _parseInternally child b with
              | Some b' => each rest b'
              | None => None
              end
          end in
      let after (b : option BuildInfo) : option BuildInfo :=
        match b with
        | None => None
        | Some buildInfo =>
            let buildInfo := shiftLevel (-1) buildInfo in
            if isEmptyElement element then
              if selfClosing then Some buildInfo
              else Some (emit JS.LF (emit (endTagOf tag) buildInfo))
            else
              let buildInfo :=
                if negb (elementHasNoChildren element && elementHasValueOrChildren element)
                then emit indentText' buildInfo
                else buildInfo in
              Some (emit JS.LF (emit (endTagOf tag) buildInfo))
        end in
      match children element with
      | Some chElements => after (each chElements buildInfo)
      | None =>
          match childNodes element with
          | Some chElements => after (each chElements buildInfo)
          | None => None
          end
      end
  end.

(** The child loop of lines 273-277, as a function of its own. *)
Fixpoint parseChildren (chElements : list Node) (buildInfo : BuildInfo)
  : option BuildInfo :=
  match chElements with
  | [] => Some buildInfo
  | child :: rest =>
      match _parseInternally child buildInfo with
      | Some buildInfo' => parseChildren rest buildInfo'
      | None => None
      end
  end.

(** [chElements] of lines 269-272. *)
Definition chElementsOf (element : Node) : option (list Node) :=
  match children element with
  | Some l => Some l
  | None => childNodes element
  end.

(** ** The renderer with the depth as a number of the host

    [indentLevel] is a number of the host, a binary64 float.  The integers
    are described by [Z]; [ofInteger z] is the number nearest to the integer
    [z]: 53 significant bits, a tie going to the even one (integers below
    2^1024).  Every integer up to 2^53 in magnitude is itself a number, so
    [increment] and [decrement] are exact up to [MAX_SAFE_INTEGER].  Here the
    result [None] is a call that gives no result: the [TypeError] of line
    273, or the loop of lines 234-236 not coming to an end. *)

Module Double.

Definition MAX_SAFE_INTEGER : Z := 2 ^ 53 - 1.

Definition ofInteger (z : Z) : Z :=
  let a := Z.abs z in
  if a <=? 2 ^ 53 then z
  else
    let ulp := 2 ^ (Z.log2 a - 52) in
    let q := a / ulp in
    let r := a mod ulp in
    let q' :=
      if 2 * r <? ulp then q
      else if ulp <? 2 * r then q + 1
      else if Z.even q then q else q + 1 in
    Z.sgn z * (q' * ulp).

(** [x++] and [x--] *)
Definition increment (x : Z) : Z := ofInteger (x + 1).
Definition decrement (x : Z) : Z := ofInteger (x - 1).

Definition setLevel (level : Z) (b : BuildInfo) : BuildInfo :=
  {| indentText := indentText b;
     xmlText := xmlText b;
     useSelfClosingElement := useSelfClosingElement b;
     indentLevel := level |}.

(** The loop of lines 234-236 counts with [idx++] from 0 while
    [idx < indentLevel]: [idx] rises by one up to 2^53 and stays there, so
    the loop comes to an end exactly when [indentLevel] is at most 2^53, and
    has then run [indentLevel] times (not at all below zero). *)
Definition loopEnds (level : Z) : bool := level <=? 2 ^ 53.

(** [_parseInternally] again, the loop of lines 234-236 counting in numbers
    and lines 267 and 279 being [increment] and [decrement]. *)
Fixpoint _parseInternally (element : Node) (buildInfo : BuildInfo) {struct element}
  : option BuildInfo :=
  let selfClosing := useSelfClosingElement buildInfo in
  if negb (loopEnds (indentLevel buildInfo)) then None else
  let indentText' :=
    repeatIndent (indentText buildInfo) (Z.to_nat (indentLevel buildInfo)) in
  let buildInfo := emit indentText' buildInfo in
  match tagName element with
  | None => Some buildInfo
  | Some tag =>
      let buildInfo := emit ("<" ++ tag) buildInfo in
      let buildInfo := emitAttributes (attributes element) buildInfo in
      let buildInfo :=
        if isEmptyElement element && selfClosing
        then emit " />" buildInfo
        else emit ">" buildInfo in
      let buildInfo :=
        if elementHasItsValue element then emit (valueOfElement element) buildInfo
        else if isEmptyElement element && negb selfClosing then buildInfo
        else emit JS.LF buildInfo in
      let buildInfo := setLevel (increment (indentLevel buildInfo)) buildInfo in
      let each :=
        fix each (chElements : list Node) (b : BuildInfo) {struct chElements}
          : option BuildInfo :=
          match chElements with
          | [] => Some b
          | child :: rest =>
              match _parseInternally child b with
              | Some b' => each rest b'
              | None => None
              end
          end in
      let after (b : option BuildInfo) : option BuildInfo :=
        match b with
        | None => None
        | Some buildInfo =>
            let buildInfo := setLevel (decrement (indentLevel buildInfo)) buildInfo in
            if isEmptyElement element then
              if selfClosing then Some buildInfo
              else Some (emit JS.LF (emit (endTagOf tag) buildInfo))
            else
              let buildInfo :=
                if negb (elementHasNoChildren element && elementHasValueOrChildren element)
                then emit indentText' buildInfo
                else buildInfo in
              Some (emit JS.LF (emit (endTagOf tag) buildInfo))
        end in
      match children element with
      | Some chElements => after (each chElements buildInfo)
      | None =>
          match childNodes element with
          | Some chElements => after (each chElements buildInfo)
          | None => None
          end
      end
  end.

Fixpoint parseChildren (chElements : list Node) (buildInfo : BuildInfo)
  : option BuildInfo :=
  match chElements with
  | [] => Some buildInfo
  | child :: rest =>
      match _parseInternally child buildInfo with
      | Some buildInfo' => parseChildren rest buildInfo'
      | None => None
      end
  end.

End Double.

(** ** The entry point *)

Module Data.

(** A value of the host language as the entry point uses it.  The indent
    option is tested for truthiness and then only concatenated to strings,
    so a value that is not a string is described by its truthiness and by
    the string it converts to ([null] is [Other false "null"], [0] is
    [Other false "0"], [true] is [Other true "true"]).  The values described
    are those that have a string conversion: strings, numbers, booleans,
    [null], [undefined], and objects whose [toString] answers.  A symbol, or
    an object whose [toString] throws, is not described; the concatenation
    of line 235 throws on it. *)
Inductive value :=
| Undefined
| Str (s : string)
| Other (isTruthy : bool) (shown : string).

Definition truthy (v : value) : bool :=
  match v with
  | Undefined => false
  | Str s => JS.truthy s
  | Other t _ => t
  end.

Definition toText (v : value) : string :=
  match v with
  | Undefined => "undefined"
  | Str s => s
  | Other _ shown => shown
  end.

(** The configuration object; [useSelfClosingElement] is a boolean when it
    is present, and [None] when it is absent. *)
Record t := mk { indent : value; useSelfClosingElement : option bool }.

End Data.

(** [list[0]], [None] when the list is empty. *)
Definition first (l : list Node) : option Node :=
  match l with
  | x :: _ => Some x
  | [] => None
  end.

Definition DEFAULT_INDENT : string := "  ".

Definition xmlHeaderOf (encoding : string) : string :=
  "<?xml version=" ++ JS.DQ ++ "1.0" ++ JS.DQ ++ " encoding=" ++ JS.DQ
    ++ encoding ++ JS.DQ ++ "?>".

(** [indent] after lines 143-150, as the string it contributes to the
    indentation (line 235 concatenates it to a string). *)
Definition chosenIndent (data : option Data.t) : string :=
  let indent := DEFAULT_INDENT in
  match data with
  | Some d =>
      if Data.truthy (Data.indent d) then Data.toText (Data.indent d) else indent
  | None => indent
  end.

(** [useSelfClosingElement] after lines 145-154. *)
Definition chosenSelfClosing (data : option Data.t) : bool :=
  let useSelfClosingElement := false in
  match data with
  | Some d =>
      match Data.useSelfClosingElement d with
      | Some true => true
      | _ => useSelfClosingElement
      end
  | None => useSelfClosingElement
  end.

(** [buildInfo.xmlText], read where [xmlText] names the input. *)
Definition builtXmlText (buildInfo : BuildInfo) : string := xmlText buildInfo.

Section Beautify.

(** [me.parser.parseFromString(xmlText, "text/xml")], the host's parser. *)
Variable parseFromString : string -> Document.

Definition beautify (xmlText : string) (data : option Data.t) : option string :=
  let doc := parseFromString xmlText in
  let indent := chosenIndent data in
  let useSelfClosingElement := chosenSelfClosing data in
  let xmlHeader :=
    if hasXmlDef xmlText then
      let encoding :=
        match getEncoding xmlText with
        | Some e => e
        | None => "null"
        end in
      Some (xmlHeaderOf encoding)
    else None in
  let buildInfo :=
    {| indentText := indent;
       xmlText := "";
       useSelfClosingElement := useSelfClosingElement;
       indentLevel := 0 |} in
  let root :=
    match doc_children doc with
    | Some l => first l
    | None =>
        match doc_childNodes doc with
        | Some l => first l
        | None => None
        end
    end in
  match root with
  | None => None
  | Some element =>
      match _parseInternally element buildInfo with
      | None => None
      | Some buildInfo =>
          let resultXml := "" in
          let resultXml :=
            match xmlHeader with
            | Some h => if JS.truthy h then resultXml ++ h ++ JS.LF else resultXml
            | None => resultXml
            end in
          Some (resultXml ++ builtXmlText buildInfo)
      end
  end.

End Beautify.

(** ** Two hosts

    The source asks the host for [children], [childNodes], [innerHTML] and
    [textContent] and guards each against [undefined].  Two hosts are
    described, both as a view of the same tree: [W3C.dom], where every
    element has [children] (its element children only) and [innerHTML];
    and [Legacy.dom], where an XML element has neither, which is the case
    the guards of the source provide for. *)

#[warnings="-register-all"]
Inductive Xml :=
| Elem (tag : string) (attrs : list Attr.t) (kids : list Xml)
| Text (data : string)
| CData (data : string).

Definition isElem (x : Xml) : bool :=
  match x with
  | Elem _ _ _ => true
  | _ => false
  end.

(** [textContent]: the character data of the descendants, in order. *)
Fixpoint textOf (x : Xml) : string :=
  match x with
  | Elem _ _ kids => fold_right (fun k acc => textOf k ++ acc) "" kids
  | Text d => d
  | CData d => d
  end.

Fixpoint escape (quot : bool) (s : string) : string :=
  match s with
  | EmptyString => EmptyString
  | String c r =>
      (if Ascii.eqb c "&" then "&amp;"
       else if Ascii.eqb c "<" then "&lt;"
       else if Ascii.eqb c ">" then "&gt;"
       else if quot && Ascii.eqb c "034" then "&quot;"
       else String c EmptyString) ++ escape quot r
  end.

(** The markup of a node, as [innerHTML] of its parent shows it. *)
Fixpoint serialize (x : Xml) : string :=
  match x with
  | Elem tag attrs kids =>
      let open :=
        "<" ++ tag
        ++ fold_right
             (fun a acc =>
                " " ++ Attr.name a ++ "=" ++ JS.DQ
                ++ escape true (Attr.textContent a) ++ JS.DQ ++ acc)
             "" attrs in
      match kids with
      | [] => open ++ "/>"
      | _ => open ++ ">" ++ fold_right (fun k acc => serialize k ++ acc) "" kids
             ++ "</" ++ tag ++ ">"
      end
  | Text d => escape false d
  | CData d => CDATA_OPEN ++ d ++ CDATA_CLOSE
  end.

Definition markupOf (kids : list Xml) : string :=
  fold_right (fun k acc => serialize k ++ acc) "" kids.

Module W3C.

Fixpoint dom (x : Xml) : Node :=
  match x with
  | Elem tag attrs kids =>
      {| textContent := textOf x;
         children := Some (flat_map (fun k => if isElem k then [dom k] else []) kids);
         childNodes := Some (map dom kids);
         tagName := Some tag;
         attributes := Some attrs;
         innerHTML := Some (markupOf kids) |}
  | Text d | CData d =>
      {| textContent := d;
         children := None;
         childNodes := Some [];
         tagName := None;
         attributes := None;
         innerHTML := None |}
  end.

Definition document (root : Xml) : Document :=
  {| doc_children := Some [dom root]; doc_childNodes := Some [dom root] |}.

End W3C.

Module Legacy.

Fixpoint dom (x : Xml) : Node :=
  match x with
  | Elem tag attrs kids =>
      {| textContent := textOf x;
         children := None;
         childNodes := Some (map dom kids);
         tagName := Some tag;
         attributes := Some attrs;
         innerHTML := None |}
  | Text d | CData d =>
      {| textContent := d;
         children := None;
         childNodes := Some [];
         tagName := None;
         attributes := None;
         innerHTML := None |}
  end.

Definition document (root : Xml) : Document :=
  {| doc_children := None; doc_childNodes := Some [dom root] |}.

End Legacy.

(** ** Documents used as examples *)

Definition fooXml : Xml := Elem "foo" [] [].
Definition nameBobXml : Xml := Elem "name" [] [Text "Bob"].
Definition abcXml : Xml := Elem "a" [] [Elem "b" [] [Elem "c" [] [Text "x"]]].

(** ** One call of the renderer, in three pieces *)

(** The indentation of lines 230-236. *)
Definition indentOf (b : BuildInfo) : string :=
  repeatIndent (indentText b) (Z.to_nat (indentLevel b)).

Definition attributesText (attrs : option (list Attr.t)) : string :=
  match attrs with
  | Some l => fold_right (fun a acc => attributeText a ++ acc) "" l
  | None => ""
  end.

(** What lines 237-265 append for an element. *)
Definition opening (element : Node) (tag : string) (b : BuildInfo) : string :=
  indentOf b ++ "<" ++ tag ++ attributesText (attributes element)
  ++ (if isEmptyElement element && useSelfClosingElement b then " />" else ">")
  ++ (if elementHasItsValue element then valueOfElement element
      else if isEmptyElement element && negb (useSelfClosingElement b) then ""
      else JS.LF).

(** What lines 281-298 append for an element entered in state [b]. *)
Definition closing (element : Node) (tag : string) (b : BuildInfo) : string :=
  if isEmptyElement element then
    if useSelfClosingElement b then "" else endTagOf tag ++ JS.LF
  else
    (if negb (elementHasNoChildren element && elementHasValueOrChildren element)
     then indentOf b else "")
    ++ endTagOf tag ++ JS.LF.

(** The state in which the child loop starts (after line 267). *)
Definition enter (element : Node) (tag : string) (b : BuildInfo) : BuildInfo :=
  shiftLevel 1 (emit (opening element tag b) b).

(** The state left by lines 279-298, [b2] being the state after the loop. *)
Definition leave (element : Node) (tag : string) (b b2 : BuildInfo) : BuildInfo :=
  emit (closing element tag b) (shiftLevel (-1) b2).

(** ** Predicates used in the statements *)

Definition appendsOnly (n : Node) : Prop :=
  forall b b', _parseInternally n b = Some b' -> exists s, b' = emit s b.

(** ** Hosts on which the renderer cannot fail

    The only failure of a call is the [TypeError] of line 273, when an
    element has neither [children] nor [childNodes]. *)

Fixpoint hosted (n : Node) : bool :=
  match tagName n with
  | None => true
  | Some _ =>
      match children n with
      | Some l => forallb hosted l
      | None =>
          match childNodes n with
          | Some l => forallb hosted l
          | None => false
          end
      end
  end.

Definition returnsOn (n : Node) : Prop :=
  hosted n = true -> forall b, exists b', _parseInternally n b = Some b'.

(** ** What the entry point renders, without the declaration line *)

(** The node the entry point hands to the renderer (lines 171-175). *)
Definition rootOf (doc : Document) : option Node :=
  match doc_children doc with
  | Some l => first l
  | None =>
      match doc_childNodes doc with
      | Some l => first l
      | None => None
      end
  end.

(** [buildInfo.xmlText] at line 183. *)
Definition renderedTree (parseFromString : string -> Document)
  (xmlText : string) (data : option Data.t) : option string :=
  match rootOf (parseFromString xmlText) with
  | None => None
  | Some element =>
      option_map builtXmlText
        (_parseInternally element
           {| indentText := chosenIndent data;
              xmlText := "";
              useSelfClosingElement := chosenSelfClosing data;
              indentLevel := 0 |})
  end.

(** ** Occurrences of a pattern in a text *)

Definition occursAt (pattern s : string) (n : nat) : Prop :=
  exists pre post, s = pre ++ pattern ++ post /\ String.length pre = n.

Definition occurs (pattern s : string) : Prop :=
  exists n, occursAt pattern s n.

Definition firstAt (pattern s : string) (n : nat) : Prop :=
  occursAt pattern s n /\ forall k, (k < n)%nat -> ~ occursAt pattern s k.

Definition ENCODING_MARKER : string := "encoding=" ++ JS.DQ.
Definition DECLARATION_END : string := JS.DQ ++ "?>".

(** [followedEncoding text enc]: [enc] lies between the end of the first
    [ENCODING_MARKER] of [text], found without regard to case, and the first
    [DECLARATION_END] after it. *)
Definition followedEncoding (text enc : string) : Prop :=
  exists pre m post,
    text = pre ++ m ++ enc ++ DECLARATION_END ++ post
    /\ JS.toLowerCase m = ENCODING_MARKER
    /\ firstAt ENCODING_MARKER (JS.toLowerCase text) (String.length pre)
    /\ firstAt DECLARATION_END (enc ++ DECLARATION_END ++ post) (String.length enc).

(** [delimitedEncoding text enc]: the same, and moreover that
    [DECLARATION_END] is the first one of the whole [text]. *)
Definition delimitedEncoding (text enc : string) : Prop :=
  exists pre m post,
    text = pre ++ m ++ enc ++ DECLARATION_END ++ post
    /\ JS.toLowerCase m = ENCODING_MARKER
    /\ firstAt ENCODING_MARKER (JS.toLowerCase text) (String.length pre)
    /\ firstAt DECLARATION_END text (String.length (pre ++ m ++ enc)).

(** ** The layout, written with the depth as a parameter

    [pretty unit self depth x] is the text of section 4.3 of the
    specification for an element [x] at nesting depth [depth]: the
    indentation is [depth] copies of [unit], and the child elements are laid
    out at depth [depth + 1]. *)

Definition nonBlank (s : string) : bool :=
  negb (JS.length (blankReplaced s) =? 0).

Definition leafKids (kids : list Xml) : bool :=
  forallb (fun k => negb (isElem k)) kids.

Fixpoint pretty (unit : string) (self : bool) (depth : nat) (x : Xml) : string :=
  match x with
  | Elem tag attrs kids =>
      let ind := repeatIndent unit depth in
      let start := ind ++ "<" ++ tag ++ attributesText (Some attrs) in
      if leafKids kids then
        if nonBlank (textOf x) then
          start ++ ">"
          ++ (if hasCDataMarkers (markupOf kids)
              then CDATA_OPEN ++ textOf x ++ CDATA_CLOSE
              else textOf x)
          ++ endTagOf tag ++ JS.LF
        else if self then start ++ " />" ++ JS.LF
        else start ++ ">" ++ endTagOf tag ++ JS.LF
      else
        start ++ ">" ++ JS.LF
        ++ fold_right
             (fun k acc => if isElem k then pretty unit self (S depth) k ++ acc else acc)
             "" kids
        ++ ind ++ endTagOf tag ++ JS.LF
  | Text _ | CData _ => ""
  end.

(** On the reference host the renderer lays an element out as [pretty]
    does; this is the statement proved by induction on the tree. *)
Definition laidOut (x : Xml) : Prop :=
  isElem x = true ->
  forall unit out self d,
    _parseInternally (W3C.dom x) (mkBuildInfo unit out self (Z.of_nat d))
    = Some (mkBuildInfo unit (out ++ pretty unit self d x) self (Z.of_nat d)).

(** ** The text of a call on any host, written with the depth as a parameter

    [layoutAt unit self depth n] is the text of lines 230-298 for the node
    [n] standing [depth] levels below the node handed to the entry point:
    the indentation is [depth] copies of [unit], and every node of
    [chElements] is laid out at [depth + 1].  No counter is kept and nothing
    is restored: the depth is the position in the tree.  [None] is the
    failure of line 273. *)

Definition startTextAt (ind : string) (self : bool) (element : Node) (tag : string)
  : string :=
  ind ++ "<" ++ tag ++ attributesText (attributes element)
  ++ (if isEmptyElement element && self then " />" else ">")
  ++ (if elementHasItsValue element then valueOfElement element
      else if isEmptyElement element && negb self then ""
      else JS.LF).

Definition endTextAt (ind : string) (self : bool) (element : Node) (tag : string)
  : string :=
  if isEmptyElement element then
    if self then "" else endTagOf tag ++ JS.LF
  else
    (if negb (elementHasNoChildren element && elementHasValueOrChildren element)
     then ind else "")
    ++ endTagOf tag ++ JS.LF.

Fixpoint layoutAt (unit : string) (self : bool) (depth : nat) (n : Node) {struct n}
  : option string :=
  let ind := repeatIndent unit depth in
  match tagName n with
  | None => Some ind
  | Some tag =>
      let below :=
        fix below (chElements : list Node) {struct chElements} : option string :=
          match chElements with
          | [] => Some ""
          | child :: rest =>
              match layoutAt unit self (S depth) child with
              | Some s => option_map (append s) (below rest)
              | None => None
              end
          end in
      let around (inner : option string) : option string :=
        option_map
          (fun s => startTextAt ind self n tag ++ s ++ endTextAt ind self n tag)
          inner in
      match children n with
      | Some chElements => around (below chElements)
      | None =>
          match childNodes n with
          | Some chElements => around (below chElements)
          | None => None
          end
      end
  end.

(** The nodes of [chElements], each laid out at [depth]. *)
Fixpoint layoutChildrenAt (unit : string) (self : bool) (depth : nat)
  (chElements : list Node) : option string :=
  match chElements with
  | [] => Some ""
  | child :: rest =>
      match layoutAt unit self depth child with
      | Some s => option_map (append s) (layoutChildrenAt unit self depth rest)
      | None => None
      end
  end.

(** A call in a state of depth zero or more appends the text of [layoutAt]
    at that depth and gives the state back otherwise unchanged. *)
Definition laysOutAt (n : Node) : Prop :=
  forall b,
    0 <= indentLevel b ->
    _parseInternally n b
    = option_map (fun s => emit s b)
        (layoutAt (indentText b) (useSelfClosingElement b)
           (Z.to_nat (indentLevel b)) n).

(** The number of calls nested in a call on [n]: during the call the depth
    rises by [height n] at most. *)
Fixpoint height (n : Node) : nat :=
  match tagName n with
  | None => 0%nat
  | Some _ =>
      S (match children n with
         | Some chElements =>
             fold_right (fun child acc => Nat.max (height child) acc) 0%nat chElements
         | None =>
             match childNodes n with
             | Some chElements =>
                 fold_right (fun child acc => Nat.max (height child) acc) 0%nat
                   chElements
             | None => 0%nat
             end
         end)
  end.

(** While the depth stays within [Double.MAX_SAFE_INTEGER], a call counts it
    in the numbers of the host as it counts it in integers. *)
Definition sameInSafeRange (n : Node) : Prop :=
  forall b,
    0 <= indentLevel b ->
    indentLevel b + Z.of_nat (height n) <= Double.MAX_SAFE_INTEGER ->
    Double._parseInternally n b = _parseInternally n b.

(** A node without a tag: character data. *)
Definition tagless (n : Node) : Prop := tagName n = None.

(** ** Texts used as examples *)

(** The declaration of the specification's example: version 1.1, encoding
    ISO-8859-1, then the element [a]. *)
Definition declarationExample : string :=
  "<?xml version=" ++ JS.DQ ++ "1.1" ++ JS.DQ ++ " encoding=" ++ JS.DQ
  ++ "ISO-8859-1" ++ JS.DQ ++ "?><a/>".

(** A declaration without an encoding, then a processing instruction that
    carries one. *)
Definition strayEndExample : string :=
  "<?xml version=" ++ JS.DQ ++ "1.0" ++ JS.DQ ++ "?><?render encoding=" ++ JS.DQ
  ++ "x" ++ JS.DQ ++ "?><a/>".

(** * The other functions of the file *)

(** ** More string primitives of the host language *)

Module JSString.

(** [s.split(separator)] for a separator that is not empty: the pieces
    between the occurrences of [separator], found from the left and not
    overlapping.  [skip] counts the characters of a found separator still to
    pass, [cur] is the piece being read. *)
Fixpoint splitFrom (separator s : string) (skip : nat) (cur : string) : list string :=
  match s with
  | EmptyString => [cur]
  | String c r =>
      match skip with
      | S k => splitFrom separator r k cur
      | O =>
          if String.prefix separator s
          then cur :: splitFrom separator r (String.length separator - 1) ""
          else splitFrom separator r 0 (cur ++ String c "")
      end
  end.

(** [s.split(separator)]; with the empty separator, one piece per
    character. *)
Definition split (s separator : string) : list string :=
  match separator with
  | EmptyString => map (fun c => String c "") (list_ascii_of_string s)
  | _ => splitFrom separator s 0 ""
  end.

(** White space and line terminators, among ASCII characters. *)
Definition isWhite (c : ascii) : bool :=
  let n := nat_of_ascii c in
  ((9 <=? n) && (n <=? 13) || (n =? 32))%nat.

Fixpoint trimStart (s : string) : string :=
  match s with
  | EmptyString => EmptyString
  | String c r => if isWhite c then trimStart r else s
  end.

Fixpoint trimEnd (s : string) : string :=
  match s with
  | EmptyString => EmptyString
  | String c r =>
      match trimEnd r with
      | EmptyString => if isWhite c then EmptyString else String c EmptyString
      | r' => String c r'
      end
  end.

(** [s.trim()] *)
Definition trim (s : string) : string := trimEnd (trimStart s).

End JSString.

(** ** [splitAndTrim] (lines 64-70) *)

(** [array[i] = v], for an index inside the array. *)
Fixpoint assign (i : nat) (v : string) (array : list string) : list string :=
  match array, i with
  | [], _ => []
  | _ :: r, O => v :: r
  | x :: r, S j => x :: assign j v r
  end.

(** The loop of lines 66-68, with [n] turns left from index [i]; reading an
    index outside the array and trimming it is a [TypeError]. *)
Fixpoint trimLoop (n i : nat) (array : list string) : option (list string) :=
  match n with
  | O => Some array
  | S k =>
      match nth_error array i with
      | Some item => trimLoop k (S i) (assign i (JSString.trim item) array)
      | None => None
      end
  end.

Definition splitAndTrim (str delimiter : string) : option (list string) :=
  let array := JSString.split str delimiter in
  trimLoop (List.length array) 0 array.

(** ** [resolveGetParam] (lines 24-37) *)

Section ResolveGetParam.

(** [location.search], and [decodeURIComponent], which throws a [URIError]
    ([None]) on a malformed escape. *)
Variable search : string.
Variable decodeURIComponent : string -> option string.

(** The argument handed to [decodeURIComponent]: [tmp[1]], or [undefined],
    which the host converts to a string. *)
Definition secondField (tmp : list string) : string :=
  match nth_error tmp 1 with
  | Some v => v
  | None => "undefined"
  end.

(** One call of the callback of lines 30-35 on [item]; [paramValue] is
    [None] for [null]. *)
Definition visitItem (param : string) (paramValue : option string) (item : string)
  : option (option string) :=
  let tmp := JSString.split item "=" in
  match nth_error tmp 0 with
  | Some key =>
      if String.eqb key param then
        match decodeURIComponent (secondField tmp) with
        | Some v => Some (Some v)
        | None => None
        end
      else Some paramValue
  | None => Some paramValue
  end.

Fixpoint forEachItem (param : string) (items : list string) (paramValue : option string)
  : option (option string) :=
  match items with
  | [] => Some paramValue
  | item :: rest =>
      match visitItem param paramValue item with
      | Some paramValue' => forEachItem param rest paramValue'
      | None => None
      end
  end.

(** The items of the query: [location.search.substr(1).split("&")]. *)
Definition queryItems : list string :=
  JSString.split (JS.substr search 1 (JS.length search)) "&".

(** The outer [None] is a thrown [URIError], the inner one is [null]. *)
Definition resolveGetParam (param : string) : option (option string) :=
  let paramValue := None in
  forEachItem param queryItems paramValue.

End ResolveGetParam.

(** ** [deleteDatasource] (lines 78-88)

    The document is the tree of its document element; a node of it is named
    by its path, the list of child indices from the document element. *)

(** [element.id]: the value of the attribute [id], or the empty string. *)
Fixpoint idOfAttrs (attrs : list Attr.t) : string :=
  match attrs with
  | [] => ""
  | a :: r => if String.eqb (Attr.name a) "id" then Attr.textContent a else idOfAttrs r
  end.

Definition idOf (x : Xml) : string :=
  match x with
  | Elem _ attrs _ => idOfAttrs attrs
  | _ => ""
  end.

(** [getElementsByTagName(tag)]: the elements named [tag] below and
    including [x], in document order, each with its path. *)
Fixpoint elementsByTagName (tag : string) (path : list nat) (x : Xml)
  : list (list nat * Xml) :=
  match x with
  | Elem t _ kids =>
      ((if String.eqb t tag then [(path, x)] else [])
       ++ (fix below (i : nat) (l : list Xml) : list (list nat * Xml) :=
             match l with
             | [] => []
             | k :: r => elementsByTagName tag (path ++ [i]) k ++ below (S i) r
             end) 0%nat kids)%list
  | _ => []
  end.

Fixpoint removeAt (i : nat) (kids : list Xml) : list Xml :=
  match kids, i with
  | [], _ => []
  | _ :: r, O => r
  | k :: r, S j => k :: removeAt j r
  end.

(** [root.documentElement.removeChild(node)]: the node at [path] must be a
    child of the document element, else the host throws [NotFoundError]. *)
Definition removeChild (documentElement : Xml) (path : list nat) : option Xml :=
  match documentElement, path with
  | Elem t attrs kids, [i] => Some (Elem t attrs (removeAt i kids))
  | _, _ => None
  end.

(** The loop of lines 81-87 over the collection. *)
Fixpoint deleteFirst (root : Xml) (dsConfigs : list (list nat * Xml))
  (datasourceId : string) : option Xml :=
  match dsConfigs with
  | [] => Some root
  | (path, config) :: rest =>
      if String.eqb (idOf config) datasourceId
      then removeChild root path
      else deleteFirst root rest datasourceId
  end.

(** The document after the call; [None] is a thrown [NotFoundError]. *)
Definition deleteDatasource (root : Xml) (datasourceId : string) : option Xml :=
  let dsConfigs := elementsByTagName "config" [] root in
  deleteFirst root dsConfigs datasourceId.

(** ** Notions used in the further properties *)

(** The state [b] with [out] as the text built so far. *)
Definition withText (out : string) (b : BuildInfo) : BuildInfo :=
  {| indentText := indentText b;
     xmlText := out;
     useSelfClosingElement := useSelfClosingElement b;
     indentLevel := indentLevel b |}.

(** What a call appends does not depend on the text built so far. *)
Definition contextFree (n : Node) : Prop :=
  forall b b', _parseInternally n b = Some b' ->
  exists s, b' = emit s b
    /\ forall out, _parseInternally n (withText out b) = Some (emit s (withText out b)).

(** No element of the tree is an empty leaf (a leaf whose text is blank). *)
Fixpoint emptyFree (x : Xml) : bool :=
  match x with
  | Elem _ _ kids =>
      if leafKids kids then nonBlank (textOf x)
      else forallb (fun k => if isElem k then emptyFree k else true) kids
  | Text _ | CData _ => true
  end.

(** The characters of a string. *)
Definition chars (s : string) : list ascii := list_ascii_of_string s.

(** [tmp[0]] for an item of the query. *)
Definition keyOf (item : string) : option string :=
  nth_error (JSString.split item "=") 0.

(** The argument of [decodeURIComponent] for an item of the query. *)
Definition valueOf (item : string) : string :=
  secondField (JSString.split item "=").

(** Number of occurrences of a character. *)
Fixpoint countChar (c : ascii) (s : string) : nat :=
  match s with
  | EmptyString => 0
  | String d r => if Ascii.eqb d c then S (countChar c r) else countChar c r
  end.

(** The children loop of [elementsByTagName], from index [i]. *)
Fixpoint elementsBelow (tag : string) (path : list nat) (i : nat) (l : list Xml)
  : list (list nat * Xml) :=
  match l with
  | [] => []
  | k :: r => (elementsByTagName tag (path ++ [i]) k ++ elementsBelow tag path (S i) r)%list
  end.

(** No [config] element of the tree [x] has the identifier [id]. *)
Definition noConfigWithId (id : string) (x : Xml) : Prop :=
  forall p c, In (p, c) (elementsByTagName "config" [] x) -> idOf c <> id.

(** * Properties *)

(** ** Strings *)

Lemma append_assoc (a b c : string) : (a ++ b) ++ c = a ++ (b ++ c).
Proof.
  induction a as [|ch a IH]; simpl; [reflexivity | now rewrite IH].
Qed.

Lemma append_nil_r (a : string) : a ++ "" = a.
Proof.
  induction a as [|ch a IH]; simpl; [reflexivity | now rewrite IH].
Qed.

Lemma length_append (a b : string) :
  String.length (a ++ b) = (String.length a + String.length b)%nat.
Proof.
  induction a as [|ch a IH]; simpl; [reflexivity | now rewrite IH].
Qed.

(** ** Occurrences and [indexOf] *)

Lemma substring_prefix (p post : string) :
  substring 0 (String.length p) (p ++ post) = p.
Proof.
  induction p as [|c p IH]; cbn.
  - destruct post; reflexivity.
  - now rewrite IH.
Qed.

Lemma substring_skip (pre s : string) (m : nat) :
  substring (String.length pre) m (pre ++ s) = substring 0 m s.
Proof.
  induction pre as [|c pre IH]; cbn; [reflexivity | exact IH].
Qed.

Lemma occursAt_substring (p s : string) (n : nat) :
  occursAt p s n -> substring n (String.length p) s = p.
Proof.
  intros (pre & post & -> & <-). rewrite substring_skip. apply substring_prefix.
Qed.

Lemma prefix_of_substring (p s : string) :
  substring 0 (String.length p) s = p -> exists post, s = p ++ post.
Proof.
  revert s. induction p as [|c p IH]; intros s H.
  - exists s. reflexivity.
  - destruct s as [|c' s]; cbn in H; [discriminate|].
    injection H as -> H. destruct (IH s H) as [post ->]. exists post. reflexivity.
Qed.

Lemma substring_occursAt (p s : string) (n : nat) :
  p <> "" -> substring n (String.length p) s = p -> occursAt p s n.
Proof.
  intros Hp. revert s. induction n as [|n IH]; intros s H.
  - destruct (prefix_of_substring p s H) as [post ->].
    exists "", post. split; reflexivity.
  - destruct s as [|c s].
    + cbn in H. congruence.
    + cbn in H. destruct (IH s H) as (pre & post & -> & Hl).
      exists (String c pre), post. split; [reflexivity | cbn; now rewrite Hl].
Qed.

Lemma index_firstAt (p s : string) (n : nat) :
  p <> "" -> (String.index 0 p s = Some n <-> firstAt p s n).
Proof.
  intros Hp. split.
  - intros H. split.
    + apply substring_occursAt; [exact Hp | apply (index_correct1 0 n p s H)].
    + intros k Hk Ho. apply (index_correct2 0 n p s H k); [lia | exact Hk |].
      apply occursAt_substring, Ho.
  - intros [Ho Hmin]. destruct (String.index 0 p s) as [m|] eqn:E.
    + destruct (Nat.lt_trichotomy m n) as [Hlt | [-> | Hgt]]; [|reflexivity|].
      * exfalso. apply (Hmin m Hlt).
        apply substring_occursAt; [exact Hp | apply (index_correct1 0 m p s E)].
      * exfalso. apply (index_correct2 0 m p s E n); [lia | exact Hgt |].
        apply occursAt_substring, Ho.
    + exfalso. apply (index_correct3 0 n p s E Hp); [lia|].
      apply occursAt_substring, Ho.
Qed.

Lemma indexOf_firstAt (p s : string) (n : nat) :
  p <> "" -> (JS.indexOf s p = Z.of_nat n <-> firstAt p s n).
Proof.
  intros Hp. rewrite <- (index_firstAt p s n Hp). unfold JS.indexOf.
  destruct (String.index 0 p s) as [m|]; split; intros H.
  - f_equal. lia.
  - injection H as ->. reflexivity.
  - lia.
  - discriminate.
Qed.

Lemma indexOf_absent (p s : string) :
  p <> "" -> (JS.indexOf s p = -1 <-> ~ occurs p s).
Proof.
  intros Hp. unfold JS.indexOf.
  destruct (String.index 0 p s) as [m|] eqn:E; split; intros H.
  - lia.
  - exfalso. apply H. exists m. apply (index_firstAt p s m Hp), E.
  - intros [n Ho]. apply (index_correct3 0 n p s E Hp); [lia|].
    apply occursAt_substring, Ho.
  - reflexivity.
Qed.

Lemma indexOf_range (p s : string) : -1 <= JS.indexOf s p.
Proof.
  unfold JS.indexOf. destruct (String.index 0 p s); lia.
Qed.

Lemma toLowerCase_length (s : string) :
  String.length (JS.toLowerCase s) = String.length s.
Proof.
  induction s as [|c s IH]; cbn; [reflexivity | now rewrite IH].
Qed.

Lemma substr_middle (a e r : string) :
  JS.substr (a ++ e ++ r) (Z.of_nat (String.length a)) (Z.of_nat (String.length e)) = e.
Proof.
  unfold JS.substr, JS.length. rewrite !length_append.
  replace (Z.of_nat (String.length a) <? 0) with false by (symmetry; apply Z.ltb_ge; lia).
  rewrite Z.min_l by lia. rewrite Z.max_l by lia. rewrite Z.min_l by lia.
  rewrite !Nat2Z.id, substring_skip. apply substring_prefix.
Qed.

(** ** The builder state *)

Lemma emit_emit (s t : string) (b : BuildInfo) : emit t (emit s b) = emit (s ++ t) b.
Proof.
  unfold emit; simpl. now rewrite append_assoc.
Qed.

Lemma emit_nil (b : BuildInfo) : emit "" b = b.
Proof.
  destruct b; unfold emit; simpl. now rewrite append_nil_r.
Qed.

Lemma shiftLevel_emit (d : Z) (s : string) (b : BuildInfo) :
  shiftLevel d (emit s b) = emit s (shiftLevel d b).
Proof. reflexivity. Qed.

Lemma shiftLevel_back (b : BuildInfo) : shiftLevel (-1) (shiftLevel 1 b) = b.
Proof.
  destruct b; unfold shiftLevel; simpl. f_equal. lia.
Qed.

(** ** One call of the renderer, in three pieces *)

Lemma emitAttributes_emit (attrs : option (list Attr.t)) (b : BuildInfo) :
  emitAttributes attrs b = emit (attributesText attrs) b.
Proof.
  destruct attrs as [l|]; simpl; [|now rewrite emit_nil].
  revert b; induction l as [|a l IH]; intros b; simpl.
  - now rewrite emit_nil.
  - now rewrite IH, emit_emit.
Qed.

Lemma parseInternally_unfold (element : Node) (b : BuildInfo) :
  _parseInternally element b =
  match tagName element with
  | None => Some (emit (indentOf b) b)
  | Some tag =>
      match chElementsOf element with
      | None => None
      | Some l =>
          match parseChildren l (enter element tag b) with
          | None => None
          | Some b2 => Some (leave element tag b b2)
          end
      end
  end.
Proof.
  destruct element as [tc ch cn tn ats ih].
  cbn [_parseInternally tagName children childNodes attributes].
  fold parseChildren.
  unfold chElementsOf, enter, leave, opening, closing.
  cbn [tagName children childNodes attributes].
  fold (indentOf b).
  set (e := mkNode tc ch cn tn ats ih).
  destruct tn as [tag|]; [|reflexivity].
  rewrite emitAttributes_emit.
  assert (Hloop : forall l b1 b1' (k k' : BuildInfo -> option BuildInfo),
    b1 = b1' -> (forall r, k r = k' r) ->
    match parseChildren l b1 with Some r => k r | None => None end =
    match parseChildren l b1' with Some r => k' r | None => None end).
  { intros l b1 b1' k k' -> Hk. destruct (parseChildren l b1'); auto. }
  destruct ch as [l|]; [|destruct cn as [l|]; [|reflexivity]].
  all: match goal with
       | |- match parseChildren _ ?x with Some u => @?k u | None => None end =
            match parseChildren _ ?y with Some v => @?k' v | None => None end =>
           apply (Hloop l x y k k')
       end.
  all: try (intros b2).
  all: destruct (isEmptyElement e); destruct (useSelfClosingElement b);
       destruct (elementHasItsValue e);
       destruct (elementHasNoChildren e && elementHasValueOrChildren e);
       cbn [andb negb];
       rewrite ?emit_emit, ?emit_nil, ?append_assoc, ?append_nil_r;
       reflexivity.
Qed.

(** ** Induction over the nodes a call visits *)

Lemma Node_visit_ind (P : Node -> Prop) :
  (forall n, (forall l, chElementsOf n = Some l -> Forall P l) -> P n) ->
  forall n, P n.
Proof.
  intros step. fix IH 1. intros [tc ch cn tn ats ih].
  apply step. unfold chElementsOf; cbn [children childNodes].
  destruct ch as [l1|]; [|destruct cn as [l2|]].
  - intros l E.
    refine (match E in _ = o return match o with Some l' => Forall P l' | None => True end
            with eq_refl => _ end).
    clear E. revert l1. fix IHl 1. intros [|c r]; constructor; [apply IH | apply IHl].
  - intros l E.
    refine (match E in _ = o return match o with Some l' => Forall P l' | None => True end
            with eq_refl => _ end).
    clear E. revert l2. fix IHl 1. intros [|c r]; constructor; [apply IH | apply IHl].
  - intros l E. discriminate E.
Qed.

(** ** A call only appends to the text *)

Lemma parseChildren_appends_from (l : list Node) :
  Forall appendsOnly l ->
  forall b b', parseChildren l b = Some b' -> exists s, b' = emit s b.
Proof.
  induction 1 as [|c l Hc _ IH]; intros b b' H; simpl in H.
  - injection H as <-. exists "". now rewrite emit_nil.
  - destruct (_parseInternally c b) as [b1|] eqn:E; [|discriminate].
    destruct (Hc _ _ E) as [s1 ->]. destruct (IH _ _ H) as [s2 ->].
    exists (s1 ++ s2). apply emit_emit.
Qed.

Lemma leave_enter (n : Node) (tag s : string) (b : BuildInfo) :
  leave n tag b (emit s (enter n tag b))
  = emit (opening n tag b ++ s ++ closing n tag b) b.
Proof.
  unfold leave, enter.
  rewrite (shiftLevel_emit (-1) s), shiftLevel_back, !emit_emit.
  rewrite ?append_assoc. reflexivity.
Qed.

Lemma parseInternally_appends (n : Node) : appendsOnly n.
Proof.
  induction n as [n IH] using Node_visit_ind. intros b b' H.
  rewrite parseInternally_unfold in H.
  destruct (tagName n) as [tag|]; [|injection H as <-; eauto].
  destruct (chElementsOf n) as [l|]; [|discriminate].
  destruct (parseChildren l (enter n tag b)) as [b2|] eqn:E; [|discriminate].
  injection H as <-.
  destruct (parseChildren_appends_from l (IH l eq_refl) _ _ E) as [s ->].
  rewrite leave_enter. eauto.
Qed.

Lemma parseChildren_appends (l : list Node) (b b' : BuildInfo) :
  parseChildren l b = Some b' -> exists s, b' = emit s b.
Proof.
  apply parseChildren_appends_from, Forall_forall.
  intros n _. apply parseInternally_appends.
Qed.

Lemma parseInternally_level (n : Node) (b b' : BuildInfo) :
  _parseInternally n b = Some b' -> indentLevel b' = indentLevel b.
Proof.
  intros H. destruct (parseInternally_appends n b b' H) as [s ->]. reflexivity.
Qed.

Lemma element_call_appends (m : Node) (bm b' : BuildInfo) (tag : string) :
  tagName m = Some tag ->
  _parseInternally m bm = Some b' ->
  exists s, b' = emit (opening m tag bm ++ s ++ closing m tag bm) bm.
Proof.
  intros Ht H. rewrite parseInternally_unfold, Ht in H.
  destruct (chElementsOf m) as [l|]; [|discriminate].
  destruct (parseChildren l (enter m tag bm)) as [b2|] eqn:E; [|discriminate].
  injection H as <-. destruct (parseChildren_appends _ _ _ E) as [s ->].
  exists s. apply leave_enter.
Qed.

(** ** The renderer returns on every hosted node *)

Lemma hosted_unfold (n : Node) :
  hosted n =
  match tagName n with
  | None => true
  | Some _ =>
      match chElementsOf n with
      | Some l => forallb hosted l
      | None => false
      end
  end.
Proof.
  destruct n as [tc [l1|] [l2|] [tag|] ats ih]; reflexivity.
Qed.

Lemma parseChildren_returns_from (l : list Node) :
  Forall returnsOn l -> forallb hosted l = true ->
  forall b, exists b', parseChildren l b = Some b'.
Proof.
  induction 1 as [|c l Hc _ IH]; intros Hh b; simpl in *.
  - eauto.
  - apply andb_true_iff in Hh as [Hh1 Hh2].
    destruct (Hc Hh1 b) as [b1 ->]. apply IH, Hh2.
Qed.

Lemma parseInternally_returns (n : Node) : returnsOn n.
Proof.
  induction n as [n IH] using Node_visit_ind. intros Hh b.
  rewrite hosted_unfold in Hh. rewrite parseInternally_unfold.
  destruct (tagName n) as [tag|]; [|eauto].
  destruct (chElementsOf n) as [l|]; [|discriminate].
  destruct (parseChildren_returns_from l (IH l eq_refl) Hh (enter n tag b)) as [b2 ->].
  eauto.
Qed.

(** ** An element with a text value *)

Lemma hasItsValue_text (e : Node) :
  elementHasItsValue e = true ->
  elementHasNoChildren e = true
  /\ elementHasValueOrChildren e = true
  /\ isEmptyElement e = false
  /\ elementTextContent e = textContent e.
Proof.
  unfold elementHasItsValue, isEmptyElement. intros H.
  apply andb_true_iff in H as [H1 H2]. rewrite H1, H2. repeat split.
  unfold elementHasValueOrChildren, elementTextContent in *.
  destruct (JS.length (blankReplaced (textContent e)) =? 0); [discriminate | reflexivity].
Qed.

Lemma valued_leaf_unfold (e : Node) (b : BuildInfo) (tag : string) :
  tagName e = Some tag ->
  elementHasItsValue e = true ->
  _parseInternally e b =
  match chElementsOf e with
  | None => None
  | Some l =>
      option_map
        (fun b2 => emit ("</" ++ tag ++ ">" ++ JS.LF) (shiftLevel (-1) b2))
        (parseChildren l
           (shiftLevel 1
              (emit (indentOf b ++ "<" ++ tag ++ attributesText (attributes e)
                     ++ ">" ++ valueOfElement e) b)))
  end.
Proof.
  intros Ht Hv. rewrite parseInternally_unfold, Ht.
  destruct (hasItsValue_text e Hv) as (Hn & Hc & He & _).
  unfold enter, leave, opening, closing. rewrite Hv, He, Hn, Hc. cbn [andb negb].
  unfold endTagOf. rewrite ?append_assoc. cbn [append].
  destruct (chElementsOf e) as [l|]; [|reflexivity].
  destruct (parseChildren l _) as [b2|]; reflexivity.
Qed.

Lemma valued_leaf_inline (e : Node) (b : BuildInfo) (tag : string) :
  tagName e = Some tag ->
  elementHasItsValue e = true ->
  chElementsOf e = Some [] ->
  _parseInternally e b =
  Some (emit (indentOf b ++ "<" ++ tag ++ attributesText (attributes e) ++ ">"
              ++ valueOfElement e ++ "</" ++ tag ++ ">" ++ JS.LF) b).
Proof.
  intros Ht Hv Hc. rewrite (valued_leaf_unfold e b tag Ht Hv), Hc.
  cbn [parseChildren option_map].
  rewrite shiftLevel_back, emit_emit.
  rewrite ?append_assoc. reflexivity.
Qed.

Lemma hasCDataMarkers_occurs (val : string) :
  hasCDataMarkers val = true <-> occurs CDATA_OPEN val /\ occurs CDATA_CLOSE val.
Proof.
  assert (Ho : CDATA_OPEN <> "") by discriminate.
  assert (Hc : CDATA_CLOSE <> "") by discriminate.
  unfold hasCDataMarkers. rewrite andb_true_iff, !negb_true_iff, !Z.eqb_neq.
  pose proof (indexOf_absent CDATA_OPEN val Ho) as H1.
  pose proof (indexOf_absent CDATA_CLOSE val Hc) as H2.
  split; intros [A B]; split.
  - destruct (String.index 0 CDATA_OPEN val) as [n|] eqn:E.
    + exists n. apply (index_firstAt _ _ _ Ho), E.
    + exfalso. apply A. unfold JS.indexOf. now rewrite E.
  - destruct (String.index 0 CDATA_CLOSE val) as [n|] eqn:E.
    + exists n. apply (index_firstAt _ _ _ Hc), E.
    + exfalso. apply B. unfold JS.indexOf. now rewrite E.
  - intros E. apply H1 in E. exact (E A).
  - intros E. apply H2 in E. exact (E B).
Qed.

(** ** The reference host *)

Lemma reportsSome_cons (l : list Node) :
  reportsSome (Some l) = match l with [] => false | _ :: _ => true end.
Proof.
  destruct l as [|c l]; [reflexivity|].
  unfold reportsSome. rewrite Z.gtb_ltb. apply Z.ltb_lt. cbn [List.length]. lia.
Qed.

Lemma W3C_hasNoChildren (tag : string) (attrs : list Attr.t) (kids : list Xml) :
  elementHasNoChildren (W3C.dom (Elem tag attrs kids)) = leafKids kids.
Proof.
  unfold elementHasNoChildren. cbn [W3C.dom children childNodes].
  rewrite !reportsSome_cons.
  induction kids as [|k kids IH]; [reflexivity|].
  cbn [flat_map leafKids forallb map].
  destruct (isElem k); cbn [negb andb app]; [reflexivity|].
  destruct (flat_map _ kids) as [|c r] eqn:E.
  - cbn [negb orb]. cbn [negb orb] in IH.
    destruct kids; [reflexivity|]. cbn [map orb negb] in IH. exact IH.
  - cbn [negb orb]. cbn [negb orb] in IH.
    destruct kids; [discriminate E|]. cbn [map orb negb] in IH. exact IH.
Qed.

Lemma W3C_hasValueOrChildren (tag : string) (attrs : list Attr.t) (kids : list Xml) :
  elementHasValueOrChildren (W3C.dom (Elem tag attrs kids))
  = nonBlank (textOf (Elem tag attrs kids)).
Proof.
  unfold elementHasValueOrChildren, elementTextContent, nonBlank.
  change (textContent (W3C.dom (Elem tag attrs kids))) with (textOf (Elem tag attrs kids)).
  destruct (textOf (Elem tag attrs kids)) as [|c r] eqn:E; [reflexivity|].
  destruct (JS.length (blankReplaced (String c r)) =? 0); [reflexivity|].
  cbn [negb]. unfold JS.truthy, JS.length. cbn [String.length].
  replace (Z.of_nat (S (String.length r)) =? 0) with false
    by (symmetry; apply Z.eqb_neq; lia).
  cbn [negb andb]. rewrite Z.gtb_ltb. apply Z.ltb_lt. lia.
Qed.

Lemma W3C_elementTextContent (tag : string) (attrs : list Attr.t) (kids : list Xml) :
  nonBlank (textOf (Elem tag attrs kids)) = true ->
  elementTextContent (W3C.dom (Elem tag attrs kids)) = textOf (Elem tag attrs kids).
Proof.
  unfold elementTextContent, nonBlank.
  change (textContent (W3C.dom (Elem tag attrs kids))) with (textOf (Elem tag attrs kids)).
  destruct (JS.length (blankReplaced (textOf (Elem tag attrs kids))) =? 0);
    [discriminate | reflexivity].
Qed.

Lemma Xml_kids_ind (P : Xml -> Prop) :
  (forall tag attrs kids, Forall P kids -> P (Elem tag attrs kids)) ->
  (forall d, P (Text d)) ->
  (forall d, P (CData d)) ->
  forall x, P x.
Proof.
  intros HE HT HC. fix IH 1. intros [tag attrs kids | d | d]; [|apply HT|apply HC].
  apply HE. revert kids. fix IHk 1.
  intros [|k kids]; constructor; [apply IH | apply IHk].
Qed.

Lemma parseChildren_laidOut (kids : list Xml) :
  Forall laidOut kids ->
  forall unit out self d,
    parseChildren (flat_map (fun k => if isElem k then [W3C.dom k] else []) kids)
      (mkBuildInfo unit out self (Z.of_nat d))
    = Some (mkBuildInfo unit
              (out ++ fold_right
                        (fun k acc => if isElem k then pretty unit self d k ++ acc else acc)
                        "" kids)
              self (Z.of_nat d)).
Proof.
  induction 1 as [|k kids Hk _ IH]; intros unit out self d.
  - cbn. now rewrite append_nil_r.
  - cbn [flat_map fold_right]. unfold laidOut in Hk.
    destruct (isElem k); [|apply IH].
    cbn [app parseChildren]. rewrite (Hk eq_refl), IH.
    now rewrite append_assoc.
Qed.

Lemma W3C_laidOut (x : Xml) : laidOut x.
Proof.
  induction x as [tag attrs kids IH | d | d] using Xml_kids_ind;
    [|discriminate|discriminate].
  intros _ unit out self d.
  set (e := W3C.dom (Elem tag attrs kids)).
  rewrite parseInternally_unfold.
  change (tagName e) with (Some tag).
  change (chElementsOf e)
    with (Some (flat_map (fun k => if isElem k then [W3C.dom k] else []) kids)).
  cbv beta iota.
  assert (Hind : indentOf (mkBuildInfo unit out self (Z.of_nat d)) = repeatIndent unit d).
  { unfold indentOf. cbn [indentText indentLevel]. now rewrite Nat2Z.id. }
  assert (Hent : enter e tag (mkBuildInfo unit out self (Z.of_nat d))
                 = mkBuildInfo unit
                     (out ++ opening e tag (mkBuildInfo unit out self (Z.of_nat d)))
                     self (Z.of_nat (S d))).
  { unfold enter, shiftLevel, emit. cbn [indentText xmlText useSelfClosingElement indentLevel].
    f_equal. lia. }
  rewrite Hent, (parseChildren_laidOut kids IH).
  unfold leave, shiftLevel, emit, opening, closing, isEmptyElement, elementHasItsValue,
    valueOfElement, elementHasItsValue.
  cbn [indentText xmlText useSelfClosingElement indentLevel].
  rewrite Hind.
  unfold e. rewrite W3C_hasNoChildren, W3C_hasValueOrChildren.
  change (attributes (W3C.dom (Elem tag attrs kids))) with (Some attrs).
  change (innerMarkup (W3C.dom (Elem tag attrs kids))) with (markupOf kids).
  f_equal. f_equal; [|lia].
  cbn [pretty]. 
  destruct (leafKids kids) eqn:Hleaf.
  - assert (Hnone : fold_right
        (fun k acc => if isElem k then pretty unit self (S d) k ++ acc else acc) "" kids = "").
    { clear - Hleaf. induction kids as [|k kids IHk]; [reflexivity|].
      cbn [leafKids forallb] in Hleaf. apply andb_true_iff in Hleaf as [H1 H2].
      cbn [fold_right]. destruct (isElem k); [discriminate|]. apply IHk, H2. }
    rewrite Hnone.
    destruct (nonBlank (textOf (Elem tag attrs kids))) eqn:Hnb.
    + rewrite (W3C_elementTextContent tag attrs kids Hnb).
      cbn [andb negb]. 
      destruct (hasCDataMarkers (markupOf kids));
        rewrite ?append_assoc, ?append_nil_r; cbn [append];
        rewrite ?append_assoc; reflexivity.
    + cbn [andb negb]. destruct self; cbn [andb negb];
        rewrite ?append_assoc, ?append_nil_r; cbn [append];
        rewrite ?append_assoc; reflexivity.
  - cbn [andb negb]. rewrite ?append_assoc. cbn [append].
    rewrite ?append_assoc. reflexivity.
Qed.

(** ** The declaration *)

Lemma hasXmlDef_occurs (xmlText : string) :
  hasXmlDef xmlText = true <-> occurs "<?xml" xmlText.
Proof.
  assert (Hp : "<?xml" <> "") by discriminate.
  unfold hasXmlDef. rewrite Z.geb_le. split.
  - intros H. destruct (String.index 0 "<?xml" xmlText) as [m|] eqn:E.
    + exists m. apply (index_firstAt _ _ _ Hp), E.
    + unfold JS.indexOf in H. rewrite E in H. lia.
  - intros Ho.
    destruct (Z.eq_dec (JS.indexOf xmlText "<?xml") (-1)) as [E|E].
    + exfalso. apply (indexOf_absent _ _ Hp) in E. exact (E Ho).
    + pose proof (indexOf_range "<?xml" xmlText). lia.
Qed.

Lemma getEncoding_null (xmlText : string) :
  getEncoding xmlText = None <-> ~ occurs "<?xml" xmlText.
Proof.
  rewrite <- hasXmlDef_occurs. unfold getEncoding.
  destruct (hasXmlDef xmlText); cbn [negb]; split; intros H;
    try discriminate; try reflexivity; try congruence.
Qed.

Lemma getEncoding_delimited (text enc : string) :
  occurs "<?xml" text -> delimitedEncoding text enc -> getEncoding text = Some enc.
Proof.
  intros Ho (pre & m & post & Htext & Hm & Hfirst & Hend).
  apply hasXmlDef_occurs in Ho. unfold getEncoding. rewrite Ho. cbn [negb]. f_equal.
  fold ENCODING_MARKER. fold DECLARATION_END.
  assert (Hlen : String.length m = 10%nat).
  { rewrite <- toLowerCase_length, Hm. reflexivity. }
  apply indexOf_firstAt in Hfirst; [|discriminate].
  apply indexOf_firstAt in Hend; [|discriminate].
  rewrite Hfirst, Hend.
  replace (Z.of_nat (String.length pre) + JS.length ENCODING_MARKER)
    with (Z.of_nat (String.length (pre ++ m)))
    by (rewrite length_append, Hlen; cbn; lia).
  replace (Z.of_nat (String.length (pre ++ m ++ enc)) - Z.of_nat (String.length (pre ++ m)))
    with (Z.of_nat (String.length enc))
    by (rewrite !length_append; lia).
  rewrite Htext.
  replace (pre ++ m ++ enc ++ DECLARATION_END ++ post)
    with ((pre ++ m) ++ enc ++ DECLARATION_END ++ post)
    by (now rewrite append_assoc).
  apply substr_middle.
Qed.

Lemma delimited_followed (text enc : string) :
  delimitedEncoding text enc -> followedEncoding text enc.
Proof.
  intros (pre & m & post & Htext & Hm & Hfirst & [Hat Hmin]).
  exists pre, m, post.
  split; [exact Htext|]. split; [exact Hm|]. split; [exact Hfirst|]. split.
  - exists enc, post. split; reflexivity.
  - intros k Hk (a & r & Ha & Hl).
    apply (Hmin (String.length (pre ++ m) + k)%nat).
    + rewrite !length_append. lia.
    + exists ((pre ++ m) ++ a), r. split.
      * rewrite Htext, !append_assoc. do 2 f_equal. rewrite Ha.
        now rewrite ?append_assoc.
      * rewrite length_append. now rewrite Hl.
Qed.

Lemma xmlHeader_truthy (encoding : string) : JS.truthy (xmlHeaderOf encoding) = true.
Proof. reflexivity. Qed.

Lemma xmlHeader_line (encoding body : string) :
  ("" ++ xmlHeaderOf encoding ++ JS.LF) ++ body
  = "<?xml version=" ++ JS.DQ ++ "1.0" ++ JS.DQ ++ " encoding=" ++ JS.DQ
    ++ encoding ++ JS.DQ ++ "?>" ++ JS.LF ++ body.
Proof.
  unfold xmlHeaderOf. rewrite ?append_assoc. reflexivity.
Qed.

Lemma beautify_chosen (parseFromString : string -> Document)
  (xmlText : string) (d d' : option Data.t) :
  chosenIndent d = chosenIndent d' ->
  chosenSelfClosing d = chosenSelfClosing d' ->
  beautify parseFromString xmlText d = beautify parseFromString xmlText d'.
Proof.
  intros H1 H2. unfold beautify. now rewrite H1, H2.
Qed.

(** ** The layout of a call *)

Lemma layoutAt_unfold (unit : string) (self : bool) (depth : nat) (n : Node) :
  layoutAt unit self depth n =
  match tagName n with
  | None => Some (repeatIndent unit depth)
  | Some tag =>
      match chElementsOf n with
      | None => None
      | Some l =>
          option_map
            (fun s => startTextAt (repeatIndent unit depth) self n tag ++ s
                      ++ endTextAt (repeatIndent unit depth) self n tag)
            (layoutChildrenAt unit self (S depth) l)
      end
  end.
Proof.
  destruct n as [tc ch cn tn ats ih].
  unfold chElementsOf. cbn [layoutAt tagName children childNodes].
  destruct tn as [tag|]; [|reflexivity].
  destruct ch as [l|]; [|destruct cn as [l|]; [|reflexivity]].
  all: f_equal.
  all: induction l as [|c l IHl]; [reflexivity|].
  all: cbn [layoutChildrenAt].
  all: destruct (layoutAt unit self (S depth) c) as [s|]; [|reflexivity].
  all: now rewrite IHl.
Qed.

Lemma parseChildren_layout (l : list Node) :
  Forall laysOutAt l ->
  forall b,
    0 <= indentLevel b ->
    parseChildren l b
    = option_map (fun s => emit s b)
        (layoutChildrenAt (indentText b) (useSelfClosingElement b)
           (Z.to_nat (indentLevel b)) l).
Proof.
  induction 1 as [|c l Hc _ IH]; intros b Hb; cbn [parseChildren layoutChildrenAt].
  - cbn [option_map]. now rewrite emit_nil.
  - rewrite (Hc b Hb).
    destruct (layoutAt (indentText b) (useSelfClosingElement b)
                (Z.to_nat (indentLevel b)) c) as [s|]; [|reflexivity].
    cbn [option_map]. rewrite (IH (emit s b) Hb).
    cbn [emit indentText useSelfClosingElement indentLevel].
    destruct (layoutChildrenAt (indentText b) (useSelfClosingElement b)
                (Z.to_nat (indentLevel b)) l) as [t|]; [|reflexivity].
    cbn [option_map]. now rewrite emit_emit.
Qed.

Lemma parseInternally_layoutAt (n : Node) : laysOutAt n.
Proof.
  induction n as [n IH] using Node_visit_ind. intros b Hb.
  rewrite parseInternally_unfold, layoutAt_unfold.
  destruct (tagName n) as [tag|]; [|reflexivity].
  destruct (chElementsOf n) as [l|]; [|reflexivity].
  assert (Hup : 0 <= indentLevel (enter n tag b)) by (cbn; lia).
  rewrite (parseChildren_layout l (IH l eq_refl) (enter n tag b) Hup).
  replace (Z.to_nat (indentLevel (enter n tag b))) with (S (Z.to_nat (indentLevel b)))
    by (cbn [enter shiftLevel emit indentLevel]; lia).
  change (indentText (enter n tag b)) with (indentText b).
  change (useSelfClosingElement (enter n tag b)) with (useSelfClosingElement b).
  destruct (layoutChildrenAt (indentText b) (useSelfClosingElement b)
              (S (Z.to_nat (indentLevel b))) l) as [s|]; [|reflexivity].
  cbn [option_map]. now rewrite leave_enter.
Qed.

(** ** The depth as a number of the host *)

Lemma ofInteger_exact (z : Z) : Z.abs z <= 2 ^ 53 -> Double.ofInteger z = z.
Proof.
  intros H. apply Z.leb_le in H. unfold Double.ofInteger. cbv zeta. now rewrite H.
Qed.

Lemma increment_exact (x : Z) :
  0 <= x <= Double.MAX_SAFE_INTEGER -> Double.increment x = x + 1.
Proof.
  unfold Double.MAX_SAFE_INTEGER, Double.increment. intros H.
  apply ofInteger_exact. remember (2 ^ 53) as P. lia.
Qed.

Lemma loopEnds_safe (x : Z) :
  x <= Double.MAX_SAFE_INTEGER -> Double.loopEnds x = true.
Proof.
  unfold Double.MAX_SAFE_INTEGER, Double.loopEnds. intros H.
  apply Z.leb_le. remember (2 ^ 53) as P. lia.
Qed.

Lemma decrement_exact (x : Z) :
  0 <= x <= Double.MAX_SAFE_INTEGER + 1 -> Double.decrement x = x - 1.
Proof.
  unfold Double.MAX_SAFE_INTEGER, Double.decrement. intros H.
  apply ofInteger_exact. remember (2 ^ 53) as P. lia.
Qed.

Lemma Double_parseInternally_unfold (element : Node) (b : BuildInfo) :
  Double.loopEnds (indentLevel b) = true ->
  Double._parseInternally element b =
  match tagName element with
  | None => Some (emit (indentOf b) b)
  | Some tag =>
      match chElementsOf element with
      | None => None
      | Some l =>
          match Double.parseChildren l
                  (Double.setLevel (Double.increment (indentLevel b))
                     (emit (opening element tag b) b)) with
          | None => None
          | Some b2 =>
              Some (emit (closing element tag b)
                      (Double.setLevel (Double.decrement (indentLevel b2)) b2))
          end
      end
  end.
Proof.
  intros Hends.
  destruct element as [tc ch cn tn ats ih].
  cbn [Double._parseInternally tagName children childNodes attributes].
  fold Double.parseChildren. rewrite Hends. cbn [negb].
  unfold chElementsOf, opening, closing.
  cbn [tagName children childNodes attributes].
  fold (indentOf b).
  set (e := mkNode tc ch cn tn ats ih).
  destruct tn as [tag|]; [|reflexivity].
  rewrite emitAttributes_emit.
  assert (Hloop : forall l b1 b1' (k k' : BuildInfo -> option BuildInfo),
    b1 = b1' -> (forall r, k r = k' r) ->
    match Double.parseChildren l b1 with Some r => k r | None => None end =
    match Double.parseChildren l b1' with Some r => k' r | None => None end).
  { intros l b1 b1' k k' -> Hk. destruct (Double.parseChildren l b1'); auto. }
  assert (Hset : forall v s b0, Double.setLevel v (emit s b0) = emit s (Double.setLevel v b0))
    by reflexivity.
  assert (Hlev : forall s b0, indentLevel (emit s b0) = indentLevel b0) by reflexivity.
  destruct ch as [l|]; [|destruct cn as [l|]; [|reflexivity]].
  all: match goal with
       | |- match Double.parseChildren _ ?x with Some u => @?k u | None => None end =
            match Double.parseChildren _ ?y with Some v => @?k' v | None => None end =>
           apply (Hloop l x y k k')
       end.
  all: try (intros b2).
  all: destruct (isEmptyElement e); destruct (useSelfClosingElement b);
       destruct (elementHasItsValue e);
       destruct (elementHasNoChildren e && elementHasValueOrChildren e);
       cbn [andb negb];
       rewrite ?emit_emit, ?emit_nil, ?Hlev, ?append_assoc, ?append_nil_r;
       reflexivity.
Qed.

Lemma height_unfold (n : Node) :
  height n =
  match tagName n with
  | None => 0%nat
  | Some _ =>
      S (match chElementsOf n with
         | Some l => fold_right (fun child acc => Nat.max (height child) acc) 0%nat l
         | None => 0%nat
         end)
  end.
Proof.
  destruct n as [tc [l1|] [l2|] [tag|] ats ih]; reflexivity.
Qed.

Lemma height_child (n : Node) (tag : string) (l : list Node) (c : Node) :
  tagName n = Some tag -> chElementsOf n = Some l -> In c l ->
  (S (height c) <= height n)%nat.
Proof.
  intros Ht Hc Hin. rewrite (height_unfold n), Ht, Hc. apply le_n_S.
  clear Ht Hc. induction l as [|d l IH]; [destruct Hin|].
  cbn [fold_right]. destruct Hin as [-> | Hin]; [lia|].
  specialize (IH Hin). lia.
Qed.

Lemma Double_parseChildren_same (l : list Node) :
  Forall sameInSafeRange l ->
  forall b,
    0 <= indentLevel b ->
    (forall c, In c l -> indentLevel b + Z.of_nat (height c) <= Double.MAX_SAFE_INTEGER) ->
    Double.parseChildren l b = parseChildren l b.
Proof.
  induction 1 as [|c l Hc _ IH]; intros b Hb Hr; [reflexivity|].
  cbn [Double.parseChildren parseChildren].
  rewrite (Hc b Hb (Hr c (or_introl eq_refl))).
  destruct (_parseInternally c b) as [b1|] eqn:E; [|reflexivity].
  pose proof (parseInternally_level c b b1 E) as Hl.
  apply IH; rewrite Hl; [exact Hb|].
  intros c' Hin. apply Hr. now right.
Qed.

Lemma Double_parseInternally_same (n : Node) : sameInSafeRange n.
Proof.
  induction n as [n IH] using Node_visit_ind. intros b Hb Hr.
  rewrite Double_parseInternally_unfold, parseInternally_unfold
    by (apply loopEnds_safe; lia).
  destruct (tagName n) as [tag|] eqn:Ht; [|reflexivity].
  destruct (chElementsOf n) as [l|] eqn:Hc; [|reflexivity].
  assert (Hh : (1 <= height n)%nat) by (rewrite height_unfold, Ht; lia).
  assert (Hm : 0 < Double.MAX_SAFE_INTEGER) by reflexivity.
  rewrite (increment_exact (indentLevel b)) by lia.
  change (Double.setLevel (indentLevel b + 1) (emit (opening n tag b) b))
    with (enter n tag b).
  rewrite (Double_parseChildren_same l (IH l eq_refl) (enter n tag b)).
  - destruct (parseChildren l (enter n tag b)) as [b2|] eqn:E; [|reflexivity].
    destruct (parseChildren_appends _ _ _ E) as [s ->].
    change (indentLevel (emit s (enter n tag b))) with (indentLevel b + 1).
    rewrite (decrement_exact (indentLevel b + 1)) by lia.
    reflexivity.
  - cbn. lia.
  - intros c Hin. pose proof (height_child n tag l c Ht Hc Hin).
    change (indentLevel (enter n tag b)) with (indentLevel b + 1). lia.
Qed.

Lemma repeatIndent_empty (k : nat) : repeatIndent "" k = "".
Proof.
  induction k as [|k IH]; [reflexivity|]. cbn [repeatIndent]. now rewrite IH.
Qed.

(** ** Child nodes that are all character data *)

Lemma repeatIndent_cons (unit : string) (k : nat) :
  unit ++ repeatIndent unit k = repeatIndent unit k ++ unit.
Proof.
  induction k as [|k IH]; cbn [repeatIndent].
  - now rewrite append_nil_r.
  - now rewrite <- append_assoc, IH.
Qed.

Lemma parseChildren_tagless (l : list Node) :
  Forall tagless l ->
  forall b,
    parseChildren l b = Some (emit (repeatIndent (indentOf b) (List.length l)) b).
Proof.
  induction 1 as [|c l Hc _ IH]; intros b; cbn [parseChildren List.length repeatIndent].
  - now rewrite emit_nil.
  - rewrite parseInternally_unfold, Hc, IH, emit_emit.
    change (indentOf (emit (indentOf b) b)) with (indentOf b).
    now rewrite repeatIndent_cons.
Qed.

Lemma valued_leaf_text_nodes (e : Node) (b : BuildInfo) (tag : string) (l : list Node) :
  tagName e = Some tag ->
  elementHasItsValue e = true ->
  chElementsOf e = Some l ->
  Forall tagless l ->
  _parseInternally e b =
  Some (emit (indentOf b ++ "<" ++ tag ++ attributesText (attributes e) ++ ">"
              ++ valueOfElement e
              ++ repeatIndent (indentOf (shiftLevel 1 b)) (List.length l)
              ++ "</" ++ tag ++ ">" ++ JS.LF) b).
Proof.
  intros Ht Hv Hc Hl. rewrite (valued_leaf_unfold e b tag Ht Hv), Hc.
  rewrite (parseChildren_tagless l Hl). cbn [option_map].
  rewrite (shiftLevel_emit (-1)), !shiftLevel_emit, shiftLevel_back, !emit_emit.
  rewrite ?append_assoc. reflexivity.
Qed.

(** * The claims of the specification *)

(** ** C1: the self-closing toggle *)

(** C1. For the input [<foo></foo>], whose tree is the single empty element
    [foo] on either host, [beautify] returns exactly [<foo />] and a line
    feed when [useSelfClosingElement] is true, and exactly [<foo></foo>]
    and a line feed when it is false, whatever the indent option; no
    declaration line comes first. *)
Theorem beautify_self_closing_toggle
  (parseFromString : string -> Document) (indent : Data.value) :
  parseFromString "<foo></foo>" = W3C.document fooXml
  \/ parseFromString "<foo></foo>" = Legacy.document fooXml ->
  beautify parseFromString "<foo></foo>" (Some (Data.mk indent (Some true)))
  = Some ("<foo />" ++ JS.LF)
  /\ beautify parseFromString "<foo></foo>" (Some (Data.mk indent (Some false)))
     = Some ("<foo></foo>" ++ JS.LF).
Proof.
  intros [H | H]; unfold beautify; rewrite H; split; reflexivity.
Qed.

Lemma beautify_self_closing_toggle_witness :
  beautify (fun _ => W3C.document fooXml) "<foo></foo>"
    (Some (Data.mk Data.Undefined (Some true))) = Some ("<foo />" ++ JS.LF)
  /\ beautify (fun _ => W3C.document fooXml) "<foo></foo>"
       (Some (Data.mk Data.Undefined (Some false))) = Some ("<foo></foo>" ++ JS.LF).
Proof.
  apply (beautify_self_closing_toggle (fun _ => W3C.document fooXml) Data.Undefined).
  left; reflexivity.
Defined.

(** ** C2: a leaf with text and its end tag *)

(** C2.  The code at [<name>Bob</name>], by the child accessor the host
    offers.  For an element with a tag and a text value
    ([elementHasItsValue]), in every builder state: when the host offers
    [children] and the list is empty, the call appends the indentation, the
    start tag, the value, and at once the end tag and a line feed.  When
    the host offers no [children], the loop falls back to [childNodes]; for
    child nodes that are all character data, each visit appends the
    indentation of the next depth (line 237 stands before the test of
    [tagName]), so that this indentation stands between the value and the
    end tag.  So [beautify] answers [<name>Bob</name>] and a line feed with
    the first host, and [<name>Bob], one indent unit, [</name>] and a line
    feed with the second. *)
Theorem leaf_value_end_tag_by_host
  (parseFromString : string -> Document) (data : option Data.t)
  (e : Node) (b : BuildInfo) (tag : string) :
  tagName e = Some tag ->
  elementHasItsValue e = true ->
  (parseFromString "<name>Bob</name>" = W3C.document nameBobXml ->
   beautify parseFromString "<name>Bob</name>" data
   = Some ("<name>Bob</name>" ++ JS.LF))
  /\ (parseFromString "<name>Bob</name>" = Legacy.document nameBobXml ->
      beautify parseFromString "<name>Bob</name>" data
      = Some ("<name>Bob" ++ chosenIndent data ++ "</name>" ++ JS.LF))
  /\ (children e = Some [] ->
      _parseInternally e b
      = Some (emit (indentOf b ++ "<" ++ tag ++ attributesText (attributes e) ++ ">"
                    ++ valueOfElement e ++ "</" ++ tag ++ ">" ++ JS.LF) b))
  /\ (forall chElements,
        children e = None ->
        childNodes e = Some chElements ->
        Forall tagless chElements ->
        _parseInternally e b
        = Some (emit (indentOf b ++ "<" ++ tag ++ attributesText (attributes e) ++ ">"
                      ++ valueOfElement e
                      ++ repeatIndent
                           (repeatIndent (indentText b) (Z.to_nat (indentLevel b + 1)))
                           (List.length chElements)
                      ++ "</" ++ tag ++ ">" ++ JS.LF) b)).
Proof.
  intros Ht Hv. split; [|split; [|split]].
  - intros Hp. unfold beautify. rewrite Hp.
    destruct data as [[v [[|]|]]|]; reflexivity.
  - intros Hp. unfold beautify. rewrite Hp.
    cbn [Legacy.document doc_children doc_childNodes first].
    rewrite (valued_leaf_text_nodes (Legacy.dom nameBobXml) _ "name"
               [Legacy.dom (Text "Bob")] eq_refl eq_refl eq_refl);
      [|repeat constructor].
    reflexivity.
  - intros Hc. apply valued_leaf_inline; try assumption.
    unfold chElementsOf. now rewrite Hc.
  - intros chElements Hc Hn Hl.
    apply (valued_leaf_text_nodes e b tag chElements Ht Hv); [|exact Hl].
    unfold chElementsOf. now rewrite Hc.
Qed.

Lemma leaf_value_end_tag_by_host_witness :
  let e := Legacy.dom nameBobXml in
  beautify (fun _ => Legacy.document nameBobXml) "<name>Bob</name>"
    (Some (Data.mk (Data.Str "    ") (Some true)))
  = Some ("<name>Bob    </name>" ++ JS.LF)
  /\ _parseInternally e (mkBuildInfo "  " "<p>" true 1)
     = Some (mkBuildInfo "  " ("<p>  <name>Bob    </name>" ++ JS.LF) true 1).
Proof.
  intros e.
  destruct (leaf_value_end_tag_by_host (fun _ => Legacy.document nameBobXml)
              (Some (Data.mk (Data.Str "    ") (Some true)))
              e (mkBuildInfo "  " "<p>" true 1) "name" eq_refl eq_refl)
    as (_ & H2 & _ & H4).
  split; [exact (H2 eq_refl)|].
  exact (H4 [Legacy.dom (Text "Bob")] eq_refl eq_refl
           (Forall_cons (P := tagless) (Legacy.dom (Text "Bob")) eq_refl
              (Forall_nil tagless))).
Defined.

(** ** C3: nested indentation *)

(** C3.  The code at [<a><b><c>x</c></b></a>] with the indent of two
    spaces, by the child accessor the host offers.  With [children],
    [beautify] answers the five lines of the specification, and every
    element is laid out as [pretty] lays it out: the start tag, and the end
    tag when it stands on a line of its own, come after [depth] copies of
    the unit, the child elements being laid out at [depth + 1].  Without
    [children], line 201 classifies every element as having no children:
    [a], [b] and [c] each append the aggregated text [x] as their value and
    close with no line feed after the start tag and no indentation before
    the end tag, and the visit of the text node appends the indentation of
    depth 3. *)
Theorem nested_indentation_by_host
  (parseFromString : string -> Document) (selfClosing : option bool) :
  (parseFromString "<a><b><c>x</c></b></a>" = W3C.document abcXml ->
   beautify parseFromString "<a><b><c>x</c></b></a>"
     (Some (Data.mk (Data.Str "  ") selfClosing))
   = Some ("<a>" ++ JS.LF ++ "  <b>" ++ JS.LF ++ "    <c>x</c>" ++ JS.LF
           ++ "  </b>" ++ JS.LF ++ "</a>" ++ JS.LF))
  /\ (parseFromString "<a><b><c>x</c></b></a>" = Legacy.document abcXml ->
      beautify parseFromString "<a><b><c>x</c></b></a>"
        (Some (Data.mk (Data.Str "  ") selfClosing))
      = Some ("<a>x  <b>x    <c>x      </c>" ++ JS.LF ++ "</b>" ++ JS.LF
              ++ "</a>" ++ JS.LF))
  /\ (forall x unit out self d,
        isElem x = true ->
        _parseInternally (W3C.dom x) (mkBuildInfo unit out self (Z.of_nat d))
        = Some (mkBuildInfo unit (out ++ pretty unit self d x) self (Z.of_nat d))).
Proof.
  split; [|split].
  - intros Hp. unfold beautify. rewrite Hp. destruct selfClosing as [[|]|]; reflexivity.
  - intros Hp. unfold beautify. rewrite Hp. destruct selfClosing as [[|]|]; reflexivity.
  - intros x unit out self d Hx. apply W3C_laidOut, Hx.
Qed.

Lemma nested_indentation_by_host_witness :
  beautify (fun _ => Legacy.document abcXml) "<a><b><c>x</c></b></a>"
    (Some (Data.mk (Data.Str "  ") None))
  = Some ("<a>x  <b>x    <c>x      </c>" ++ JS.LF ++ "</b>" ++ JS.LF ++ "</a>" ++ JS.LF)
  /\ _parseInternally (W3C.dom abcXml) (mkBuildInfo JS.TAB "" true (Z.of_nat 0))
     = Some (mkBuildInfo JS.TAB ("" ++ pretty JS.TAB true 0 abcXml) true (Z.of_nat 0)).
Proof.
  destruct (nested_indentation_by_host (fun _ => Legacy.document abcXml) None)
    as (_ & H2 & H3).
  split; [exact (H2 eq_refl) | exact (H3 abcXml JS.TAB "" true 0%nat eq_refl)].
Defined.

(** ** C4: the declaration line *)

(** C4. When [<?xml] occurs in the input, [beautify] answers the line
    [<?xml version="1.0" encoding="E"?>], a line feed, and then the
    rendered tree, [E] being what [getEncoding] extracts from the input;
    the version is the literal 1.0.  When [<?xml] does not occur, it
    answers the rendered tree alone.  It fails exactly when rendering the
    tree fails. *)
Theorem declaration_line
  (parseFromString : string -> Document) (xmlText : string) (data : option Data.t) :
  (occurs "<?xml" xmlText ->
   exists E,
     getEncoding xmlText = Some E
     /\ beautify parseFromString xmlText data
        = option_map
            (fun body =>
               "<?xml version=" ++ JS.DQ ++ "1.0" ++ JS.DQ ++ " encoding=" ++ JS.DQ
               ++ E ++ JS.DQ ++ "?>" ++ JS.LF ++ body)
            (renderedTree parseFromString xmlText data))
  /\ (~ occurs "<?xml" xmlText ->
      beautify parseFromString xmlText data
      = renderedTree parseFromString xmlText data).
Proof.
  split; intros Ho.
  - apply hasXmlDef_occurs in Ho.
    destruct (getEncoding xmlText) as [E|] eqn:HE;
      [|unfold getEncoding in HE; rewrite Ho in HE; discriminate].
    exists E. split; [reflexivity|].
    unfold beautify, renderedTree, rootOf. rewrite Ho, HE.
    destruct (doc_children (parseFromString xmlText)) as [l|];
      [|destruct (doc_childNodes (parseFromString xmlText)) as [l|]; [|reflexivity]].
    all: destruct (first l) as [element|]; [|reflexivity].
    all: destruct (_parseInternally element _) as [b|]; [|reflexivity].
    all: rewrite xmlHeader_truthy; cbn [option_map]; f_equal; apply xmlHeader_line.
  - assert (Hx : hasXmlDef xmlText = false).
    { destruct (hasXmlDef xmlText) eqn:E; [|reflexivity].
      exfalso. apply Ho, hasXmlDef_occurs, E. }
    unfold beautify, renderedTree, rootOf. rewrite Hx.
    destruct (doc_children (parseFromString xmlText)) as [l|];
      [|destruct (doc_childNodes (parseFromString xmlText)) as [l|]; [|reflexivity]].
    all: destruct (first l) as [element|]; [|reflexivity].
    all: destruct (_parseInternally element _) as [b|]; reflexivity.
Qed.

Lemma declaration_line_witness :
  beautify (fun _ => W3C.document (Elem "a" [] [])) declarationExample None
  = Some ("<?xml version=" ++ JS.DQ ++ "1.0" ++ JS.DQ ++ " encoding=" ++ JS.DQ
          ++ "ISO-8859-1" ++ JS.DQ ++ "?>" ++ JS.LF ++ "<a></a>" ++ JS.LF)
  /\ beautify (fun _ => W3C.document fooXml) "<foo></foo>" None
     = renderedTree (fun _ => W3C.document fooXml) "<foo></foo>" None.
Proof.
  split.
  - destruct (proj1 (declaration_line (fun _ => W3C.document (Elem "a" [] []))
                       declarationExample None)) as (E & HE & HB).
    + apply hasXmlDef_occurs. reflexivity.
    + change (Some "ISO-8859-1" = Some E) in HE. injection HE as <-.
      rewrite HB. reflexivity.
  - apply (declaration_line (fun _ => W3C.document fooXml) "<foo></foo>" None).
    intros Ho. apply hasXmlDef_occurs in Ho. discriminate Ho.
Defined.

(** ** C5: the encoding *)

(** C5, as the code has it.  [getEncoding] answers null exactly when
    [<?xml] does not occur in the text.  Otherwise, when the text holds,
    after the first [encoding=] marker (found without regard to case), a
    value closed by the first declaration end of the whole text, it answers
    that value as it stands; such a value is in particular the one that lies
    between the marker and the declaration end that follows it. *)
Theorem getEncoding_first_declaration_end (text : string) :
  (getEncoding text = None <-> ~ occurs "<?xml" text)
  /\ forall enc,
       occurs "<?xml" text ->
       delimitedEncoding text enc ->
       getEncoding text = Some enc /\ followedEncoding text enc.
Proof.
  split; [apply getEncoding_null|].
  intros enc Ho Hd. split; [apply getEncoding_delimited; assumption|].
  apply delimited_followed, Hd.
Qed.

Lemma getEncoding_first_declaration_end_witness :
  getEncoding declarationExample = Some "ISO-8859-1"
  /\ followedEncoding declarationExample "ISO-8859-1".
Proof.
  apply (proj2 (getEncoding_first_declaration_end declarationExample) "ISO-8859-1").
  - apply hasXmlDef_occurs. reflexivity.
  - exists ("<?xml version=" ++ JS.DQ ++ "1.1" ++ JS.DQ ++ " "),
      ("encoding=" ++ JS.DQ), "<a/>".
    split; [reflexivity|]. split; [reflexivity|].
    split; (apply indexOf_firstAt; [discriminate | reflexivity]).
Defined.

(** In [strayEndExample] the value between the first [encoding=] marker and
    the declaration end that follows it is [x]; [getEncoding] answers the
    empty string, which is not that value, because the first declaration
    end of the text stands before the marker. *)
Lemma getEncoding_not_the_following_end :
  occurs "<?xml" strayEndExample
  /\ followedEncoding strayEndExample "x"
  /\ getEncoding strayEndExample = Some ""
  /\ ~ followedEncoding strayEndExample "".
Proof.
  split; [apply hasXmlDef_occurs; reflexivity|].
  split; [|split; [reflexivity|]].
  - exists ("<?xml version=" ++ JS.DQ ++ "1.0" ++ JS.DQ ++ "?><?render "),
      ("encoding=" ++ JS.DQ), "<a/>".
    split; [reflexivity|]. split; [reflexivity|].
    split; (apply indexOf_firstAt; [discriminate | reflexivity]).
  - intros (pre & m & post & Htext & Hm & Hfirst & _).
    apply indexOf_firstAt in Hfirst; [|discriminate].
    assert (Hi : JS.indexOf (JS.toLowerCase strayEndExample) ENCODING_MARKER = 30)
      by reflexivity.
    rewrite Hi in Hfirst.
    assert (Hlen : String.length (pre ++ m) = 40%nat).
    { rewrite length_append, <- (toLowerCase_length m), Hm. cbn. lia. }
    assert (Ho : occursAt DECLARATION_END strayEndExample 40).
    { exists (pre ++ m), post. split; [|exact Hlen].
      rewrite Htext, append_assoc. reflexivity. }
    apply occursAt_substring in Ho. discriminate Ho.
Qed.

(** ** C6: what counts as having no children *)



(** ** C7: a node without a tag *)

(** C7, as the code has it.  In a given builder state, a call on a
    text-only node (no [tagName]) returns and appends at most copies of the
    indent unit: no tag, no line feed and none of the character data of the
    node.  What it appends is the same for every such node, and the indent
    depth is left as it was. *)
Theorem text_node_adds_no_content (b : BuildInfo) :
  exists copies : nat,
    forall n,
      tagName n = None ->
      _parseInternally n b
      = Some (mkBuildInfo (indentText b)
                (xmlText b ++ repeatIndent (indentText b) copies)
                (useSelfClosingElement b) (indentLevel b)).
Proof.
  exists (Z.to_nat (indentLevel b)). intros n Ht.
  rewrite parseInternally_unfold, Ht. reflexivity.
Qed.

Lemma text_node_adds_no_content_witness :
  exists copies : nat,
    forall n,
      tagName n = None ->
      _parseInternally n (mkBuildInfo "  " "<name>Bob" false 1)
      = Some (mkBuildInfo "  " ("<name>Bob" ++ repeatIndent "  " copies) false 1).
Proof.
  apply (text_node_adds_no_content (mkBuildInfo "  " "<name>Bob" false 1)).
Defined.

(** On a host without [children], the child loop of the element of
    [<name>Bob</name>] visits the text node in the state left by the start
    tag and the value; the call appends two spaces and not the characters
    [Bob]. *)
Lemma text_node_not_rendered_as_content :
  let root := Legacy.dom nameBobXml in
  let n := Legacy.dom (Text "Bob") in
  let b0 := mkBuildInfo "  " "" false 0 in
  let b1 := mkBuildInfo "  " "<name>Bob" false 1 in
  chElementsOf root = Some [n]
  /\ _parseInternally root b0
     = option_map (fun b2 => emit ("</name>" ++ JS.LF) (shiftLevel (-1) b2))
         (parseChildren [n] b1)
  /\ tagName n = None
  /\ textContent n = "Bob"
  /\ _parseInternally n b1 = Some (emit "  " b1)
  /\ _parseInternally n b1 <> Some (emit (textContent n) b1)
  /\ beautify (fun _ => Legacy.document nameBobXml) "<name>Bob</name>" None
     = Some ("<name>Bob  </name>" ++ JS.LF).
Proof.
  cbv zeta. repeat split. discriminate.
Qed.

(** ** C8: the value of a leaf and CDATA *)

(** C8. For every element with a text value ([elementHasItsValue]): when
    the inner markup (the host's [innerHTML], or the text content where the
    host has none) contains both the CDATA opener and the CDATA closer, the
    value is the text content wrapped in one fresh CDATA pair; otherwise it
    is the plain text content.  The call appends that value right after the
    start tag, before any child is visited and before the end tag. *)
Theorem leaf_value_cdata (e : Node) (b : BuildInfo) (tag : string) :
  tagName e = Some tag ->
  elementHasItsValue e = true ->
  (occurs "<![CDATA[" (innerMarkup e) /\ occurs "]]>" (innerMarkup e) ->
   valueOfElement e = "<![CDATA[" ++ textContent e ++ "]]>")
  /\ (~ (occurs "<![CDATA[" (innerMarkup e) /\ occurs "]]>" (innerMarkup e)) ->
      valueOfElement e = textContent e)
  /\ _parseInternally e b =
     match chElementsOf e with
     | None => None
     | Some l =>
         option_map
           (fun b2 => emit ("</" ++ tag ++ ">" ++ JS.LF) (shiftLevel (-1) b2))
           (parseChildren l
              (shiftLevel 1
                 (emit (indentOf b ++ "<" ++ tag ++ attributesText (attributes e)
                        ++ ">" ++ valueOfElement e) b)))
     end
  /\ (chElementsOf e = Some [] ->
      _parseInternally e b
      = Some (emit (indentOf b ++ "<" ++ tag ++ attributesText (attributes e) ++ ">"
                    ++ valueOfElement e ++ "</" ++ tag ++ ">" ++ JS.LF) b)).
Proof.
  intros Ht Hv.
  assert (Hval : valueOfElement e =
                 if hasCDataMarkers (innerMarkup e)
                 then CDATA_OPEN ++ textContent e ++ CDATA_CLOSE
                 else textContent e).
  { unfold valueOfElement. rewrite Hv.
    destruct (hasItsValue_text e Hv) as (_ & _ & _ & ->). reflexivity. }
  split; [|split; [|split]].
  - intros Hm. apply hasCDataMarkers_occurs in Hm. rewrite Hval, Hm. reflexivity.
  - intros Hm. rewrite Hval.
    destruct (hasCDataMarkers (innerMarkup e)) eqn:E; [|reflexivity].
    exfalso. apply Hm, hasCDataMarkers_occurs, E.
  - apply valued_leaf_unfold; assumption.
  - intros Hc. apply valued_leaf_inline; assumption.
Qed.

Lemma leaf_value_cdata_witness :
  let e := W3C.dom (Elem "q" [Attr.mk "id" "1"] [CData "a<b"]) in
  let plain := W3C.dom (Elem "q" [] [Text "a<b"]) in
  let b := mkBuildInfo "  " "" false 2 in
  valueOfElement e = "<![CDATA[a<b]]>"
  /\ valueOfElement plain = "a<b"
  /\ _parseInternally e b
     = Some (mkBuildInfo "  "
               ("    <q id=" ++ JS.DQ ++ "1" ++ JS.DQ ++ "><![CDATA[a<b]]></q>" ++ JS.LF)
               false 2).
Proof.
  intros e plain b.
  destruct (leaf_value_cdata e b "q" eq_refl eq_refl) as (Hv & _ & _ & Hr).
  destruct (leaf_value_cdata plain b "q" eq_refl eq_refl) as (_ & Hp & _ & _).
  split; [|split].
  - apply Hv. split; [exists 0%nat | exists 12%nat];
      apply substring_occursAt; try discriminate; reflexivity.
  - apply Hp. intros [Ho _]. destruct Ho as [n Ho].
    apply (indexOf_absent "<![CDATA[" (innerMarkup plain)); [discriminate | reflexivity |].
    exists n. exact Ho.
  - exact (Hr eq_refl).
Defined.

(** ** C9: the indent depth *)

(** C9, as the code has it.  For every node and every builder state whose
    depth is zero or more and stays within [Double.MAX_SAFE_INTEGER] during
    the call, the depth being counted in numbers of the host.  The call
    appends the text of [layoutAt] at the depth of the state and gives back
    the state with its depth as before: so the indentation of every nested
    call is as many copies of the unit as the depth of the state plus the
    number of elements entered, never a negative number.  For an element,
    the child loop is run in the state whose depth is one more, and the call
    answers the state left by the loop with its depth one less.  In that
    range the call is the one counted in integers, and on a host where every
    element has a child accessor it does return. *)
Theorem indent_depth_restored (n : Node) (b : BuildInfo) :
  0 <= indentLevel b ->
  indentLevel b + Z.of_nat (height n) <= Double.MAX_SAFE_INTEGER ->
  Double._parseInternally n b
  = option_map (fun s => emit s b)
      (layoutAt (indentText b) (useSelfClosingElement b) (Z.to_nat (indentLevel b)) n)
  /\ (forall tag chElements,
        tagName n = Some tag ->
        chElementsOf n = Some chElements ->
        Double._parseInternally n b
        = option_map
            (fun b2 =>
               mkBuildInfo (indentText b2) (xmlText b2 ++ closing n tag b)
                 (useSelfClosingElement b2) (indentLevel b2 - 1))
            (Double.parseChildren chElements
               (mkBuildInfo (indentText b) (xmlText b ++ opening n tag b)
                  (useSelfClosingElement b) (indentLevel b + 1))))
  /\ Double._parseInternally n b = _parseInternally n b
  /\ (hosted n = true ->
      exists s, Double._parseInternally n b = Some (emit s b)).
Proof.
  intros Hb Hr.
  pose proof (Double_parseInternally_same n b Hb Hr) as Hsame.
  split; [rewrite Hsame; apply parseInternally_layoutAt, Hb|].
  split; [|split; [exact Hsame|]].
  - intros tag chElements Ht Hc.
    assert (Hh : (1 <= height n)%nat) by (rewrite height_unfold, Ht; lia).
    assert (Hm : 0 < Double.MAX_SAFE_INTEGER) by reflexivity.
    rewrite Double_parseInternally_unfold, Ht, Hc by (apply loopEnds_safe; lia).
    rewrite (increment_exact (indentLevel b)) by lia.
    change (Double.setLevel (indentLevel b + 1) (emit (opening n tag b) b))
      with (enter n tag b).
    change (mkBuildInfo (indentText b) (xmlText b ++ opening n tag b)
              (useSelfClosingElement b) (indentLevel b + 1))
      with (enter n tag b).
    destruct (Double.parseChildren chElements (enter n tag b)) as [b2|] eqn:E;
      [|reflexivity].
    rewrite (Double_parseChildren_same chElements) in E.
    + destruct (parseChildren_appends _ _ _ E) as [s ->].
      change (indentLevel (emit s (enter n tag b))) with (indentLevel b + 1).
      rewrite (decrement_exact (indentLevel b + 1)) by lia.
      reflexivity.
    + apply Forall_forall. intros c _. apply Double_parseInternally_same.
    + cbn. lia.
    + intros c Hin. pose proof (height_child n tag chElements c Ht Hc Hin).
      change (indentLevel (enter n tag b)) with (indentLevel b + 1). lia.
  - intros Hh. rewrite Hsame.
    destruct (parseInternally_returns n Hh b) as [b' Hb'].
    destruct (parseInternally_appends n b b' Hb') as [s ->]. eauto.
Qed.

Lemma indent_depth_restored_witness :
  let b0 := mkBuildInfo "  " "" false 0 in
  Double._parseInternally (Legacy.dom abcXml) b0
  = option_map (fun s => emit s b0) (layoutAt "  " false 0 (Legacy.dom abcXml))
  /\ layoutAt "  " false 0 (W3C.dom abcXml)
     = Some ("<a>" ++ JS.LF ++ "  <b>" ++ JS.LF ++ "    <c>x</c>" ++ JS.LF
             ++ "  </b>" ++ JS.LF ++ "</a>" ++ JS.LF)
  /\ Double._parseInternally (W3C.dom abcXml) b0
     = Some (mkBuildInfo "  "
               ("<a>" ++ JS.LF ++ "  <b>" ++ JS.LF ++ "    <c>x</c>" ++ JS.LF
                ++ "  </b>" ++ JS.LF ++ "</a>" ++ JS.LF) false 0).
Proof.
  intros b0.
  assert (Hrange : 0 + Z.of_nat 3 <= Double.MAX_SAFE_INTEGER)
    by (unfold Double.MAX_SAFE_INTEGER; lia).
  split; [|split].
  - apply (proj1 (indent_depth_restored (Legacy.dom abcXml) b0 (Z.le_refl 0) Hrange)).
  - reflexivity.
  - rewrite (proj1 (indent_depth_restored (W3C.dom abcXml) b0 (Z.le_refl 0) Hrange)).
    reflexivity.
Defined.

(** Above [Double.MAX_SAFE_INTEGER] the depth is not restored.  In a state of
    depth 2^53 with the empty indent unit, the call on the empty element
    [foo] returns with the depth 2^53 - 1: line 267 leaves 2^53 as it is,
    2^53 + 1 not being a number of the host, and line 279 takes one off. *)
Lemma indent_depth_not_restored_above_safe_integers :
  let b := mkBuildInfo "" "" false (2 ^ 53) in
  Double._parseInternally (W3C.dom fooXml) b
  = Some (mkBuildInfo "" ("<foo></foo>" ++ JS.LF) false (2 ^ 53 - 1))
  /\ ~ (forall b',
          Double._parseInternally (W3C.dom fooXml) b = Some b' ->
          indentLevel b' = indentLevel b).
Proof.
  intros b.
  assert (Hcall : Double._parseInternally (W3C.dom fooXml) b
                  = Some (mkBuildInfo "" ("<foo></foo>" ++ JS.LF) false (2 ^ 53 - 1))).
  { rewrite Double_parseInternally_unfold by (vm_compute; reflexivity).
    change (tagName (W3C.dom fooXml)) with (Some "foo").
    change (chElementsOf (W3C.dom fooXml)) with (Some (@nil Node)).
    cbv beta iota. cbn [Double.parseChildren].
    assert (Hop : opening (W3C.dom fooXml) "foo" b = "<foo>").
    { unfold opening, indentOf. cbn [indentText b]. rewrite repeatIndent_empty.
      reflexivity. }
    assert (Hcl : closing (W3C.dom fooXml) "foo" b = "</foo>" ++ JS.LF) by reflexivity.
    rewrite Hop, Hcl.
    change (indentLevel b) with (2 ^ 53).
    change (indentLevel (Double.setLevel (Double.increment (2 ^ 53)) (emit "<foo>" b)))
      with (Double.increment (2 ^ 53)).
    assert (Hup : Double.increment (2 ^ 53) = 2 ^ 53) by (vm_compute; reflexivity).
    assert (Hdown : Double.decrement (2 ^ 53) = 2 ^ 53 - 1) by (vm_compute; reflexivity).
    rewrite Hup, Hdown. reflexivity. }
  split; [exact Hcall|].
  intros H. specialize (H _ Hcall). cbn [indentLevel b] in H.
  revert H. vm_compute. discriminate.
Qed.

(** ** C10: a falsy indent option *)

(** C10. When the configuration object is present and its indent option is
    falsy (absent, the empty string, or any other falsy value), [beautify]
    answers what it answers for the default unit of two spaces; a truthy
    string is the unit that is used.  So the explicit indent [""] gives the
    indented output, not an unindented one. *)
Theorem falsy_indent_falls_back
  (parseFromString : string -> Document) (xmlText : string)
  (indent : Data.value) (selfClosing : option bool) (s : string) :
  Data.truthy indent = false ->
  JS.truthy s = true ->
  beautify parseFromString xmlText (Some (Data.mk indent selfClosing))
  = beautify parseFromString xmlText (Some (Data.mk (Data.Str "  ") selfClosing))
  /\ chosenIndent (Some (Data.mk indent selfClosing)) = "  "
  /\ chosenIndent (Some (Data.mk (Data.Str s) selfClosing)) = s
  /\ beautify (fun _ => W3C.document abcXml) "<a><b><c>x</c></b></a>"
       (Some (Data.mk (Data.Str "") selfClosing))
     = Some ("<a>" ++ JS.LF ++ "  <b>" ++ JS.LF ++ "    <c>x</c>" ++ JS.LF
             ++ "  </b>" ++ JS.LF ++ "</a>" ++ JS.LF).
Proof.
  intros Hf Hs.
  assert (Hi : chosenIndent (Some (Data.mk indent selfClosing)) = "  ").
  { unfold chosenIndent. cbn [Data.indent]. now rewrite Hf. }
  split; [|split; [exact Hi | split]].
  - apply beautify_chosen; [rewrite Hi|]; reflexivity.
  - unfold chosenIndent. cbn [Data.indent Data.truthy Data.toText]. now rewrite Hs.
  - destruct selfClosing as [[|]|]; reflexivity.
Qed.

Lemma falsy_indent_falls_back_witness :
  beautify (fun _ => W3C.document abcXml) "<a><b><c>x</c></b></a>"
    (Some (Data.mk (Data.Str "") None))
  = beautify (fun _ => W3C.document abcXml) "<a><b><c>x</c></b></a>"
      (Some (Data.mk (Data.Str "  ") None))
  /\ chosenIndent (Some (Data.mk (Data.Other false "0") None)) = "  "
  /\ chosenIndent (Some (Data.mk (Data.Str JS.TAB) None)) = JS.TAB.
Proof.
  destruct (falsy_indent_falls_back (fun _ => W3C.document abcXml)
              "<a><b><c>x</c></b></a>" (Data.Str "") None JS.TAB eq_refl eq_refl)
    as (H1 & _ & H3 & _).
  destruct (falsy_indent_falls_back (fun _ => W3C.document abcXml)
              "<a><b><c>x</c></b></a>" (Data.Other false "0") None JS.TAB
              eq_refl eq_refl)
    as (_ & H2 & _ & _).
  split; [exact H1 | split; [exact H2 | exact H3]].
Defined.

(** * Further properties of the code *)

(** ** The renderer: failure *)

Lemma parseChildren_fails_from (l : list Node) :
  Forall (fun n => hosted n = false -> forall b, _parseInternally n b = None) l ->
  forallb hosted l = false ->
  forall b, parseChildren l b = None.
Proof.
  induction 1 as [|c l Hc _ IH]; intros Hh b; cbn in *; [discriminate|].
  destruct (hosted c) eqn:E.
  - cbn in Hh. destruct (_parseInternally c b); [apply IH, Hh | reflexivity].
  - now rewrite (Hc eq_refl b).
Qed.

Lemma parseInternally_fails (n : Node) :
  hosted n = false -> forall b, _parseInternally n b = None.
Proof.
  induction n as [n IH] using Node_visit_ind. intros Hh b.
  rewrite hosted_unfold in Hh. rewrite parseInternally_unfold.
  destruct (tagName n) as [tag|]; [|discriminate].
  destruct (chElementsOf n) as [l|]; [|reflexivity].
  now rewrite (parseChildren_fails_from l (IH l eq_refl) Hh).
Qed.

(** X1. A call of the renderer throws exactly when it reaches an element
    that has neither [children] nor [childNodes]; on every other node it
    returns. *)
Theorem renderer_throws_iff_no_accessor (n : Node) (b : BuildInfo) :
  _parseInternally n b = None <-> hosted n = false.
Proof.
  split.
  - intros H. destruct (hosted n) eqn:E; [|reflexivity].
    destruct (parseInternally_returns n E b) as [b' Hb]. congruence.
  - intros H. apply parseInternally_fails, H.
Qed.

(** ** The renderer: what a call appends *)

Lemma parseChildren_contextFree_from (l : list Node) :
  Forall contextFree l ->
  forall b b', parseChildren l b = Some b' ->
  exists s, b' = emit s b
    /\ forall out, parseChildren l (withText out b) = Some (emit s (withText out b)).
Proof.
  induction 1 as [|c l Hc _ IH]; intros b b' H; cbn [parseChildren] in *.
  - injection H as <-. exists "". split; [now rewrite emit_nil|].
    intros out. now rewrite emit_nil.
  - destruct (_parseInternally c b) as [b1|] eqn:E; [|discriminate].
    destruct (Hc b b1 E) as (s1 & -> & H1).
    destruct (IH _ _ H) as (s2 & -> & H2).
    exists (s1 ++ s2). split; [apply emit_emit|].
    intros out. rewrite H1.
    change (emit s1 (withText out b)) with (withText (out ++ s1) (emit s1 b)).
    rewrite H2. f_equal. unfold emit, withText; cbn. f_equal. apply append_assoc.
Qed.

Lemma parseInternally_contextFree (n : Node) : contextFree n.
Proof.
  induction n as [n IH] using Node_visit_ind. intros b b' H.
  rewrite parseInternally_unfold in H.
  destruct (tagName n) as [tag|] eqn:Ht.
  - destruct (chElementsOf n) as [l|] eqn:Hl; [|discriminate].
    destruct (parseChildren l (enter n tag b)) as [b2|] eqn:E; [|discriminate].
    injection H as <-.
    destruct (parseChildren_contextFree_from l (IH l eq_refl) _ _ E) as (s & -> & Hs).
    exists (opening n tag b ++ s ++ closing n tag b). split; [apply leave_enter|].
    intros out. rewrite parseInternally_unfold, Ht, Hl.
    change (enter n tag (withText out b))
      with (withText (out ++ opening n tag b) (enter n tag b)).
    rewrite Hs. f_equal.
    unfold leave, enter, emit, shiftLevel, withText; cbn.
    f_equal; [|lia]. rewrite ?append_assoc. reflexivity.
  - injection H as <-. exists (indentOf b). split; [reflexivity|].
    intros out. rewrite parseInternally_unfold, Ht. reflexivity.
Qed.

(** X2. A call that returns only appends: the earlier text, the indent
    unit, the self-closing flag and the depth are left as they were.  And what
    it appends does not depend on the text built so far: started from any
    other text, the same call appends the same characters. *)
Theorem renderer_appends_the_same_anywhere (n : Node) (b b' : BuildInfo) :
  _parseInternally n b = Some b' ->
  exists s,
    xmlText b' = xmlText b ++ s
    /\ indentText b' = indentText b
    /\ useSelfClosingElement b' = useSelfClosingElement b
    /\ indentLevel b' = indentLevel b
    /\ forall out,
         _parseInternally n (mkBuildInfo (indentText b) out
                               (useSelfClosingElement b) (indentLevel b))
         = Some (mkBuildInfo (indentText b) (out ++ s)
                   (useSelfClosingElement b) (indentLevel b)).
Proof.
  intros H. destruct (parseInternally_contextFree n b b' H) as (s & -> & Hs).
  exists s. repeat split. exact Hs.
Qed.

Lemma renderer_appends_the_same_anywhere_witness :
  exists s,
    "<r>" ++ JS.LF ++ "  <name>Bob</name>" ++ JS.LF = "<r>" ++ JS.LF ++ s
    /\ _parseInternally (W3C.dom nameBobXml) (mkBuildInfo "  " "" false 1)
       = Some (mkBuildInfo "  " ("" ++ s) false 1).
Proof.
  destruct (renderer_appends_the_same_anywhere (W3C.dom nameBobXml)
              (mkBuildInfo "  " ("<r>" ++ JS.LF) false 1)
              (mkBuildInfo "  " ("<r>" ++ JS.LF ++ "  <name>Bob</name>" ++ JS.LF) false 1)
              eq_refl) as (s & H1 & _ & _ & _ & H2).
  exists s. split; [exact H1 | exact (H2 "")].
Defined.

(** ** The renderer: the start tag *)

Lemma attributesText_concat (l : list Attr.t) :
  attributesText (Some l) = String.concat "" (map attributeText l).
Proof.
  induction l as [|a l IH]; [reflexivity|].
  cbn [attributesText fold_right map] in *. rewrite IH.
  destruct l as [|a' l]; [apply append_nil_r | reflexivity].
Qed.

(** X3. The text a call appends for an element starts with the indentation
    and the start tag, in which every attribute is written as a space, its
    name, an equals sign and its value between double quotes, in the order
    of the attribute list and with the value as it is (nothing is escaped);
    the tag is closed by [ />] for an empty element under self-closing and
    by [>] otherwise. *)
Theorem start_tag_lists_attributes
  (e : Node) (b b' : BuildInfo) (tag : string) (attrs : list Attr.t) :
  tagName e = Some tag ->
  attributes e = Some attrs ->
  _parseInternally e b = Some b' ->
  exists rest,
    xmlText b'
    = xmlText b ++ indentOf b ++ "<" ++ tag
      ++ String.concat ""
           (map (fun a => " " ++ Attr.name a ++ "=" ++ JS.DQ
                          ++ Attr.textContent a ++ JS.DQ) attrs)
      ++ (if isEmptyElement e && useSelfClosingElement b then " />" else ">")
      ++ rest.
Proof.
  intros Ht Ha H.
  destruct (element_call_appends e b b' tag Ht H) as [s ->].
  unfold opening. rewrite Ha, attributesText_concat. cbn [xmlText emit].
  eexists. rewrite ?append_assoc. reflexivity.
Qed.

Lemma start_tag_lists_attributes_witness :
  exists rest,
    xmlText (mkBuildInfo "  "
               ("<q b=" ++ JS.DQ ++ "2" ++ JS.DQ ++ " a=" ++ JS.DQ ++ "x<y" ++ JS.DQ
                ++ " />" ++ JS.LF) true 0)
    = "" ++ "" ++ "<" ++ "q"
      ++ String.concat ""
           (map (fun a => " " ++ Attr.name a ++ "=" ++ JS.DQ
                          ++ Attr.textContent a ++ JS.DQ)
              [Attr.mk "b" "2"; Attr.mk "a" "x<y"])
      ++ " />" ++ rest.
Proof.
  apply (start_tag_lists_attributes
           (W3C.dom (Elem "q" [Attr.mk "b" "2"; Attr.mk "a" "x<y"] []))
           (mkBuildInfo "  " "" true 0)
           (mkBuildInfo "  "
              ("<q b=" ++ JS.DQ ++ "2" ++ JS.DQ ++ " a=" ++ JS.DQ ++ "x<y" ++ JS.DQ
               ++ " />" ++ JS.LF) true 0)
           "q" [Attr.mk "b" "2"; Attr.mk "a" "x<y"]); reflexivity.
Defined.

(** ** The renderer on the reference host *)

Lemma flat_map_elements_filter (kids : list Xml) :
  flat_map (fun k => if isElem k then [W3C.dom k] else []) (filter isElem kids)
  = flat_map (fun k => if isElem k then [W3C.dom k] else []) kids.
Proof.
  induction kids as [|k kids IH]; [reflexivity|].
  cbn [filter flat_map]. destruct (isElem k) eqn:E; [|exact IH].
  cbn [flat_map]. rewrite E, IH. reflexivity.
Qed.

Lemma leafKids_filter (kids : list Xml) :
  leafKids (filter isElem kids) = leafKids kids.
Proof.
  induction kids as [|k kids IH]; [reflexivity|].
  cbn [filter leafKids forallb]. destruct (isElem k) eqn:E.
  - cbn [leafKids forallb]. now rewrite E.
  - exact IH.
Qed.

(** X4. On the reference host, an element that has a child element is
    rendered as if its text and CDATA children were not there: the
    character data standing beside child elements never reaches the
    output, whatever it is (blank or not). *)
Theorem mixed_content_text_is_dropped
  (tag : string) (attrs : list Attr.t) (kids : list Xml) (b : BuildInfo) :
  leafKids kids = false ->
  _parseInternally (W3C.dom (Elem tag attrs kids)) b
  = _parseInternally (W3C.dom (Elem tag attrs (filter isElem kids))) b.
Proof.
  intros Hl.
  assert (Hl' : leafKids (filter isElem kids) = false) by now rewrite leafKids_filter.
  rewrite !parseInternally_unfold.
  change (tagName (W3C.dom (Elem tag attrs kids))) with (Some tag).
  change (tagName (W3C.dom (Elem tag attrs (filter isElem kids)))) with (Some tag).
  cbv beta iota.
  change (chElementsOf (W3C.dom (Elem tag attrs kids)))
    with (Some (flat_map (fun k => if isElem k then [W3C.dom k] else []) kids)).
  change (chElementsOf (W3C.dom (Elem tag attrs (filter isElem kids))))
    with (Some (flat_map (fun k => if isElem k then [W3C.dom k] else [])
                  (filter isElem kids))).
  cbv beta iota. rewrite flat_map_elements_filter.
  assert (Ho : forall b0,
    opening (W3C.dom (Elem tag attrs kids)) tag b0
    = opening (W3C.dom (Elem tag attrs (filter isElem kids))) tag b0).
  { intros b0. unfold opening, isEmptyElement, elementHasItsValue.
    rewrite !W3C_hasNoChildren, Hl, Hl'. reflexivity. }
  assert (Hc : forall b0,
    closing (W3C.dom (Elem tag attrs kids)) tag b0
    = closing (W3C.dom (Elem tag attrs (filter isElem kids))) tag b0).
  { intros b0. unfold closing, isEmptyElement.
    rewrite !W3C_hasNoChildren, Hl, Hl'. reflexivity. }
  unfold enter, leave. rewrite Ho.
  destruct (parseChildren _ _) as [b2|]; [|reflexivity].
  now rewrite Hc.
Qed.

Lemma mixed_content_text_is_dropped_witness :
  _parseInternally
    (W3C.dom (Elem "a" [] [Text "lost"; Elem "b" [] []; CData "too"]))
    (mkBuildInfo "  " "" false 0)
  = _parseInternally (W3C.dom (Elem "a" [] [Elem "b" [] []]))
      (mkBuildInfo "  " "" false 0).
Proof.
  apply (mixed_content_text_is_dropped "a" []
           [Text "lost"; Elem "b" [] []; CData "too"] (mkBuildInfo "  " "" false 0)).
  reflexivity.
Defined.

Lemma pretty_flag_irrelevant (x : Xml) :
  emptyFree x = true ->
  forall unit d, pretty unit true d x = pretty unit false d x.
Proof.
  induction x as [tag attrs kids IH | t | t] using Xml_kids_ind;
    [|reflexivity|reflexivity].
  intros He unit d. cbn [emptyFree] in He. cbn [pretty].
  destruct (leafKids kids).
  - now rewrite He.
  - do 3 f_equal.
    assert (Hk : fold_right
        (fun k acc => if isElem k then pretty unit true (S d) k ++ acc else acc) "" kids
        = fold_right
        (fun k acc => if isElem k then pretty unit false (S d) k ++ acc else acc) "" kids).
    { clear tag attrs. induction IH as [|k kids Hk _ IHk]; [reflexivity|].
      cbn [forallb] in He. apply andb_true_iff in He as [H1 H2].
      cbn [fold_right]. rewrite (IHk H2).
      destruct (isElem k); [|reflexivity]. now rewrite (Hk H1). }
    now rewrite Hk.
Qed.

(** X5. On the reference host the self-closing flag acts on empty leaves
    only: for a tree in which no element is a leaf with blank text, the
    renderer builds the same text whether the flag is set or not. *)
Theorem self_closing_only_touches_empty_leaves
  (x : Xml) (unit out : string) (d : nat) :
  isElem x = true ->
  emptyFree x = true ->
  option_map xmlText
    (_parseInternally (W3C.dom x) (mkBuildInfo unit out true (Z.of_nat d)))
  = option_map xmlText
      (_parseInternally (W3C.dom x) (mkBuildInfo unit out false (Z.of_nat d))).
Proof.
  intros Hx He. rewrite !(W3C_laidOut x Hx). cbn [option_map xmlText].
  now rewrite (pretty_flag_irrelevant x He).
Qed.

Lemma self_closing_only_touches_empty_leaves_witness :
  option_map xmlText
    (_parseInternally (W3C.dom abcXml) (mkBuildInfo "  " "" true (Z.of_nat 0)))
  = option_map xmlText
      (_parseInternally (W3C.dom abcXml) (mkBuildInfo "  " "" false (Z.of_nat 0))).
Proof.
  apply (self_closing_only_touches_empty_leaves abcXml "  " "" 0); reflexivity.
Defined.

Lemma pretty_ends_with_line_feed (x : Xml) (unit : string) (self : bool) (d : nat) :
  isElem x = true -> exists body, pretty unit self d x = body ++ JS.LF.
Proof.
  destruct x as [tag attrs kids | t | t]; [|discriminate|discriminate].
  intros _. cbn [pretty].
  destruct (leafKids kids); [destruct (nonBlank _); [|destruct self]|];
    eexists; rewrite <- ?append_assoc; reflexivity.
Qed.

(** X6. On the reference host the text a call appends for an element ends
    with a line feed: every element of the output is closed by the end of
    a line. *)
Theorem element_output_ends_with_line_feed
  (x : Xml) (unit out : string) (self : bool) (d : nat) :
  isElem x = true ->
  exists body,
    _parseInternally (W3C.dom x) (mkBuildInfo unit out self (Z.of_nat d))
    = Some (mkBuildInfo unit (out ++ body ++ JS.LF) self (Z.of_nat d)).
Proof.
  intros Hx. destruct (pretty_ends_with_line_feed x unit self d Hx) as [body Hb].
  exists body. rewrite (W3C_laidOut x Hx), Hb. reflexivity.
Qed.

Lemma element_output_ends_with_line_feed_witness :
  exists body,
    _parseInternally (W3C.dom fooXml) (mkBuildInfo "  " "" true (Z.of_nat 3))
    = Some (mkBuildInfo "  " ("" ++ body ++ JS.LF) true (Z.of_nat 3)).
Proof.
  apply (element_output_ends_with_line_feed fooXml "  " "" true 3). reflexivity.
Defined.

(** ** The entry point: failure *)

Lemma hosted_W3C (x : Xml) : hosted (W3C.dom x) = true.
Proof.
  induction x as [tag attrs kids IH | t | t] using Xml_kids_ind;
    [|reflexivity|reflexivity].
  rewrite hosted_unfold.
  change (tagName (W3C.dom (Elem tag attrs kids))) with (Some tag).
  change (chElementsOf (W3C.dom (Elem tag attrs kids)))
    with (Some (flat_map (fun k => if isElem k then [W3C.dom k] else []) kids)).
  cbv beta iota.
  induction IH as [|k kids Hk _ IHk]; [reflexivity|].
  cbn [flat_map]. destruct (isElem k); [|exact IHk].
  cbn [app forallb]. now rewrite Hk, IHk.
Qed.

Lemma hosted_Legacy (x : Xml) : hosted (Legacy.dom x) = true.
Proof.
  induction x as [tag attrs kids IH | t | t] using Xml_kids_ind;
    [|reflexivity|reflexivity].
  rewrite hosted_unfold.
  change (tagName (Legacy.dom (Elem tag attrs kids))) with (Some tag).
  change (chElementsOf (Legacy.dom (Elem tag attrs kids)))
    with (Some (map Legacy.dom kids)).
  cbv beta iota.
  induction IH as [|k kids Hk _ IHk]; [reflexivity|].
  cbn [map forallb]. now rewrite Hk, IHk.
Qed.

Lemma beautify_none (parseFromString : string -> Document)
  (xmlText : string) (data : option Data.t) :
  beautify parseFromString xmlText data = None <->
  rootOf (parseFromString xmlText) = None
  \/ exists element,
       rootOf (parseFromString xmlText) = Some element /\ hosted element = false.
Proof.
  unfold beautify. fold (rootOf (parseFromString xmlText)).
  destruct (rootOf (parseFromString xmlText)) as [element|]; [|tauto].
  destruct (_parseInternally element _) as [b|] eqn:E.
  - split; [discriminate|]. intros [H | (e & [= <-] & He)]; [discriminate|].
    rewrite (parseInternally_fails _ He) in E.
    discriminate E.
  - split; [|reflexivity]. intros _. right. exists element. split; [reflexivity|].
    destruct (hosted element) eqn:Hh; [|reflexivity].
    destruct (parseInternally_returns element Hh
                (mkBuildInfo (chosenIndent data) "" (chosenSelfClosing data) 0))
      as [b' Hb].
    congruence.
Qed.

(** X7. For a document whose nodes are elements and character data, and a
    configuration whose indent option has a string conversion (the values
    of [Data.value]), [beautify] throws exactly in two cases: the parsed
    document hands over no first node (its child list is empty, or it has
    neither [children] nor [childNodes]), or the renderer reaches an element
    that has no child accessor. *)
Theorem beautify_throws_iff
  (parseFromString : string -> Document) (xmlText : string) (data : option Data.t) :
  let doc := parseFromString xmlText in
  beautify parseFromString xmlText data = None <->
  (doc_children doc = Some []
   \/ (doc_children doc = None /\ doc_childNodes doc = Some [])
   \/ (doc_children doc = None /\ doc_childNodes doc = None)
   \/ exists element,
        rootOf doc = Some element /\ hosted element = false).
Proof.
  cbv zeta. rewrite beautify_none. unfold rootOf.
  destruct (doc_children (parseFromString xmlText)) as [[|c l]|];
    [|
     |destruct (doc_childNodes (parseFromString xmlText)) as [[|c l]|]];
    cbn [first]; split; intros H; auto.
  - destruct H as [H | (e & He & Hh)]; [discriminate|]. eauto 6.
  - destruct H as [H | [[H _] | [[H _] | H]]]; try discriminate. right. exact H.
  - destruct H as [H | (e & He & Hh)]; [discriminate|]. eauto 6.
  - destruct H as [H | [[_ H] | [[_ H] | H]]]; try discriminate. right. exact H.
Qed.

(** X8. When the parser answers a document whose first node is the root
    element of a tree of elements and character data, on either host,
    [beautify] returns a text for every such tree and every configuration
    whose indent option has a string conversion (the values of
    [Data.value]). *)
Theorem beautify_returns_on_both_hosts
  (parseFromString : string -> Document) (xmlText : string) (data : option Data.t)
  (x : Xml) :
  parseFromString xmlText = W3C.document x
  \/ parseFromString xmlText = Legacy.document x ->
  exists out, beautify parseFromString xmlText data = Some out.
Proof.
  intros Hp.
  destruct (beautify parseFromString xmlText data) as [out|] eqn:E; [eauto|].
  exfalso. apply beautify_none in E.
  destruct Hp as [Hp | Hp]; rewrite Hp in E;
    destruct E as [E | (e & [= <-] & Hh)]; try discriminate E.
  - now rewrite hosted_W3C in Hh.
  - now rewrite hosted_Legacy in Hh.
Qed.

Lemma beautify_returns_on_both_hosts_witness :
  exists out,
    beautify (fun _ => Legacy.document abcXml) "<a><b><c>x</c></b></a>" None = Some out.
Proof.
  apply (beautify_returns_on_both_hosts (fun _ => Legacy.document abcXml)
           "<a><b><c>x</c></b></a>" None abcXml).
  right; reflexivity.
Defined.

(** ** Blank text *)

Lemma hasValue_nonBlank (e : Node) :
  elementHasValueOrChildren e = nonBlank (textContent e).
Proof.
  unfold elementHasValueOrChildren, elementTextContent, nonBlank.
  destruct (textContent e) as [|c r]; [reflexivity|].
  destruct (JS.length (blankReplaced (String c r)) =? 0); [reflexivity|].
  cbn [negb]. unfold JS.truthy, JS.length. cbn [String.length].
  replace (Z.of_nat (S (String.length r)) =? 0) with false
    by (symmetry; apply Z.eqb_neq; lia).
  cbn [negb andb]. rewrite Z.gtb_ltb. apply Z.ltb_lt. lia.
Qed.

Lemma nonBlank_false (s : string) : nonBlank s = false <-> blankReplaced s = "".
Proof.
  unfold nonBlank, JS.length. rewrite negb_false_iff, Z.eqb_eq.
  destruct (blankReplaced s); cbn; split; intros H; try reflexivity; try discriminate; lia.
Qed.

Lemma nonBlank_true (s : string) : nonBlank s = true <-> blankReplaced s <> "".
Proof.
  rewrite <- nonBlank_false. destruct (nonBlank s); split; congruence.
Qed.

Lemma blankReplaced_blank (s : string) :
  (forall c, In c (chars s) -> c = " "%char \/ c = "009"%char \/ c = "010"%char) ->
  blankReplaced s = "".
Proof.
  induction s as [|c r IH]; intros H; [reflexivity|].
  assert (Hr : blankReplaced r = "") by (apply IH; intros d Hd; apply H; right; exact Hd).
  destruct (H c (or_introl eq_refl)) as [-> | [-> | ->]]; exact Hr.
Qed.

Lemma removeChar_keeps (c d : ascii) (s : string) :
  d <> c -> In d (chars s) -> In d (chars (JS.removeChar c s)).
Proof.
  intros Hd. induction s as [|e r IH]; [auto|]. cbn [chars list_ascii_of_string JS.removeChar].
  intros [-> | H].
  - destruct (Ascii.eqb_spec d c); [contradiction | left; reflexivity].
  - destruct (Ascii.eqb e c); [apply IH, H | right; apply IH, H].
Qed.

Lemma removeNewlines_keeps_upto (n : nat) (d : ascii) :
  d <> "010"%char -> d <> "013"%char ->
  forall s, (String.length s <= n)%nat ->
  In d (chars s) -> In d (chars (JS.removeNewlines s)).
Proof.
  intros H1 H2. induction n as [|n IH]; intros s Hn.
  - destruct s; [auto | cbn in Hn; lia].
  - destruct s as [|c r]; [auto|]. cbn [String.length] in Hn.
    cbn [chars list_ascii_of_string JS.removeNewlines]. intros [-> | H].
    + destruct (Ascii.eqb_spec d "010"); [contradiction|].
      destruct (Ascii.eqb_spec d "013"); [contradiction|]. left; reflexivity.
    + destruct (Ascii.eqb c "010"); [apply IH; [lia | exact H]|].
      destruct (Ascii.eqb c "013").
      * destruct r as [|e r']; [destruct H|].
        cbn [String.length] in Hn. destruct (Ascii.eqb_spec e "010") as [-> | He].
        -- apply IH; [lia|]. destruct H as [<- | H]; [contradiction | exact H].
        -- right. apply IH; [cbn [String.length]; lia | exact H].
      * right. apply IH; [lia | exact H].
Qed.

Lemma blankReplaced_keeps (d : ascii) (s : string) :
  d <> " "%char -> d <> "009"%char -> d <> "010"%char -> d <> "013"%char ->
  In d (chars s) -> In d (chars (blankReplaced s)).
Proof.
  intros H0 H1 H2 H3 H. unfold blankReplaced.
  apply removeChar_keeps; [exact H1|]. apply removeChar_keeps; [exact H2|].
  apply (removeNewlines_keeps_upto _ d H2 H3 _ (Nat.le_refl _)).
  apply removeChar_keeps; [exact H0 | exact H].
Qed.

Lemma removeChar_last (c d : ascii) (s : string) :
  d <> c -> JS.removeChar c (s ++ String d "") = JS.removeChar c s ++ String d "".
Proof.
  intros Hd. induction s as [|e r IH]; cbn [append JS.removeChar].
  - destruct (Ascii.eqb_spec d c); [contradiction | reflexivity].
  - rewrite IH. destruct (Ascii.eqb e c); reflexivity.
Qed.

Lemma removeNewlines_last_upto (n : nat) :
  forall s, (String.length s <= n)%nat ->
  exists u, JS.removeNewlines (s ++ JS.CR) = u ++ JS.CR.
Proof.
  induction n as [|n IH]; intros s Hn.
  - destruct s; [exists ""; reflexivity | cbn in Hn; lia].
  - destruct s as [|c r]; [exists ""; reflexivity|]. cbn [String.length] in Hn.
    cbn [append JS.removeNewlines].
    destruct (Ascii.eqb c "010"); [apply IH; lia|].
    destruct (Ascii.eqb c "013").
    + destruct r as [|e r'].
      * exists (String c ""). reflexivity.
      * cbn [append String.length] in *.
        destruct (Ascii.eqb e "010") eqn:Ee.
        -- apply IH; lia.
        -- destruct (IH (String e r')) as [u Hu]; [cbn [String.length]; lia|].
           cbn [append] in Hu. rewrite Hu. exists (String c u). reflexivity.
    + destruct (IH r) as [u Hu]; [lia|]. rewrite Hu. exists (String c u). reflexivity.
Qed.

Lemma append_last_not_nil (u : string) (c : ascii) : u ++ String c "" <> "".
Proof. destruct u; discriminate. Qed.

Lemma blankReplaced_trailing_return (t : string) : blankReplaced (t ++ JS.CR) <> "".
Proof.
  unfold blankReplaced, JS.CR.
  rewrite removeChar_last by discriminate.
  destruct (removeNewlines_last_upto _ (JS.removeChar " " t) (Nat.le_refl _)) as [u Hu].
  unfold JS.CR in Hu. rewrite Hu.
  rewrite !removeChar_last by discriminate.
  apply append_last_not_nil.
Qed.

(** X9. Whether an element has a text value is decided on its text content
    with the blanks taken out.  A text made of spaces, tabs and line feeds
    only is no value; a text holding any character other than a space, a
    tab, a line feed or a carriage return is a value; and a text that ends
    with a carriage return is a value too, because a carriage return is
    taken out only where a line feed follows it. *)
Theorem blank_text_is_no_value (e : Node) :
  ((forall c, In c (chars (textContent e)) ->
      c = " "%char \/ c = "009"%char \/ c = "010"%char) ->
   elementHasValueOrChildren e = false)
  /\ ((exists c, In c (chars (textContent e))
        /\ c <> " "%char /\ c <> "009"%char /\ c <> "010"%char /\ c <> "013"%char) ->
      elementHasValueOrChildren e = true)
  /\ (forall t, textContent e = t ++ JS.CR -> elementHasValueOrChildren e = true).
Proof.
  rewrite hasValue_nonBlank. split; [|split].
  - intros H. apply nonBlank_false, blankReplaced_blank, H.
  - intros (c & Hc & H0 & H1 & H2 & H3). apply nonBlank_true. intros E.
    pose proof (blankReplaced_keeps c _ H0 H1 H2 H3 Hc) as Hin.
    rewrite E in Hin. exact Hin.
  - intros t ->. apply nonBlank_true, blankReplaced_trailing_return.
Qed.

Lemma blank_text_is_no_value_witness :
  elementHasValueOrChildren (W3C.dom (Elem "a" [] [Text (" " ++ JS.TAB ++ JS.LF)])) = false
  /\ elementHasValueOrChildren (W3C.dom (Elem "a" [] [Text " x "])) = true
  /\ elementHasValueOrChildren (W3C.dom (Elem "a" [] [Text (" " ++ JS.CR)])) = true.
Proof.
  split; [|split].
  - apply (blank_text_is_no_value (W3C.dom (Elem "a" [] [Text (" " ++ JS.TAB ++ JS.LF)]))).
    intros c [<- | [<- | [<- | []]]]; auto.
  - apply (blank_text_is_no_value (W3C.dom (Elem "a" [] [Text " x "]))).
    exists "x"%char. repeat split; try discriminate. right; left; reflexivity.
  - apply (proj2 (proj2 (blank_text_is_no_value
                           (W3C.dom (Elem "a" [] [Text (" " ++ JS.CR)])))) " ").
    reflexivity.
Defined.

(** ** The declaration: missing markers *)

Lemma substring_zero (n : nat) (s : string) : substring n 0 s = "".
Proof.
  revert n. induction s as [|c r IH]; intros [|n]; cbn; auto.
Qed.

Lemma substr_nothing (s : string) (start len : Z) :
  len <= 0 -> JS.substr s start len = "".
Proof.
  intros H. unfold JS.substr.
  assert (Hc : forall from, 0 <= JS.length s - from ->
                Z.to_nat (Z.min (Z.max len 0) (JS.length s - from)) = 0%nat) by lia.
  assert (Hs : 0 <= JS.length s) by (unfold JS.length; lia).
  destruct (start <? 0) eqn:E;
    [apply Z.ltb_lt in E | apply Z.ltb_ge in E];
    rewrite Hc by lia; apply substring_zero.
Qed.

Lemma getEncoding_some (text : string) :
  occurs "<?xml" text ->
  getEncoding text
  = Some (JS.substr text
            (JS.indexOf (JS.toLowerCase text) ENCODING_MARKER + 10)
            (JS.indexOf text DECLARATION_END
             - (JS.indexOf (JS.toLowerCase text) ENCODING_MARKER + 10))).
Proof.
  intros Ho. apply hasXmlDef_occurs in Ho. unfold getEncoding. now rewrite Ho.
Qed.

(** X10. When the text has a declaration but no [encoding=] marker in any
    case, [getEncoding] does not answer null: it answers the characters of
    the text from position 9 up to the first declaration end, whatever they
    are. *)
Theorem getEncoding_without_marker (text a g post : string) :
  occurs "<?xml" text ->
  ~ occurs ENCODING_MARKER (JS.toLowerCase text) ->
  text = a ++ g ++ DECLARATION_END ++ post ->
  String.length a = 9%nat ->
  firstAt DECLARATION_END text (String.length (a ++ g)) ->
  getEncoding text = Some g.
Proof.
  intros Ho Hm Ht Ha He. rewrite (getEncoding_some text Ho). f_equal.
  apply indexOf_absent in Hm; [|discriminate].
  apply indexOf_firstAt in He; [|discriminate].
  rewrite Hm, He, length_append, Ha.
  replace (-1 + 10) with (Z.of_nat (String.length a)) by lia.
  replace (Z.of_nat (9 + String.length g) - Z.of_nat (String.length a))
    with (Z.of_nat (String.length g)) by lia.
  rewrite Ht. apply substr_middle.
Qed.

Lemma getEncoding_without_marker_witness :
  getEncoding ("<?xml version=" ++ JS.DQ ++ "1.0" ++ JS.DQ ++ "?><a/>")
  = Some ("sion=" ++ JS.DQ ++ "1.0").
Proof.
  apply (getEncoding_without_marker
           ("<?xml version=" ++ JS.DQ ++ "1.0" ++ JS.DQ ++ "?><a/>")
           "<?xml ver" ("sion=" ++ JS.DQ ++ "1.0") "<a/>").
  - apply hasXmlDef_occurs. reflexivity.
  - apply indexOf_absent; [discriminate | reflexivity].
  - reflexivity.
  - reflexivity.
  - apply indexOf_firstAt; [discriminate | reflexivity].
Defined.

(** X11. When the text has a declaration and its first declaration end
    does not stand after the end of the first [encoding=] marker, or the
    text has no declaration end at all, [getEncoding] answers the empty
    string. *)
Theorem getEncoding_empty_when_end_comes_first (text : string) :
  occurs "<?xml" text ->
  (~ occurs DECLARATION_END text -> getEncoding text = Some "")
  /\ (forall i j,
        firstAt ENCODING_MARKER (JS.toLowerCase text) i ->
        firstAt DECLARATION_END text j ->
        (j <= i + 10)%nat ->
        getEncoding text = Some "").
Proof.
  intros Ho. rewrite (getEncoding_some text Ho). split.
  - intros He. apply indexOf_absent in He; [|discriminate].
    rewrite He, substr_nothing; [reflexivity|].
    pose proof (indexOf_range ENCODING_MARKER (JS.toLowerCase text)). lia.
  - intros i j Hi Hj Hij.
    apply indexOf_firstAt in Hi; [|discriminate].
    apply indexOf_firstAt in Hj; [|discriminate].
    rewrite Hi, Hj, substr_nothing; [reflexivity | lia].
Qed.

Lemma getEncoding_empty_when_end_comes_first_witness :
  getEncoding "<?xml version='1.0' encoding='UTF-8'?><a/>" = Some ""
  /\ getEncoding strayEndExample = Some "".
Proof.
  split.
  - apply (getEncoding_empty_when_end_comes_first
             "<?xml version='1.0' encoding='UTF-8'?><a/>").
    + apply hasXmlDef_occurs. reflexivity.
    + apply indexOf_absent; [discriminate | reflexivity].
  - apply (proj2 (getEncoding_empty_when_end_comes_first strayEndExample
                    ltac:(apply hasXmlDef_occurs; reflexivity)) 30%nat 18%nat).
    + apply indexOf_firstAt; [discriminate | reflexivity].
    + apply indexOf_firstAt; [discriminate | reflexivity].
    + lia.
Defined.

(** ** [splitAndTrim] *)

Lemma assign_middle (done rest : list string) (x v : string) :
  assign (List.length done) v (done ++ x :: rest)%list = (done ++ v :: rest)%list.
Proof.
  induction done as [|d done IH]; [reflexivity|].
  cbn [List.length app assign]. now rewrite IH.
Qed.

Lemma nth_error_middle (done rest : list string) (x : string) :
  nth_error (done ++ x :: rest)%list (List.length done) = Some x.
Proof.
  induction done as [|d done IH]; [reflexivity | exact IH].
Qed.

Lemma trimLoop_maps (rest done : list string) :
  trimLoop (List.length rest) (List.length done) (done ++ rest)%list
  = Some (done ++ map JSString.trim rest)%list.
Proof.
  revert done. induction rest as [|x rest IH]; intros done; [reflexivity|].
  cbn [List.length trimLoop map]. rewrite nth_error_middle, assign_middle.
  specialize (IH (done ++ [JSString.trim x])%list).
  rewrite length_app, Nat.add_1_r, <- !app_assoc in IH. exact IH.
Qed.

(** X12. [splitAndTrim] never throws, and its in-place loop trims every
    piece of the split and nothing else: the result is the list of the
    pieces of [str.split(delimiter)], each trimmed, in the same order and
    in the same number (empty pieces are kept). *)
Theorem splitAndTrim_trims_each_piece (str delimiter : string) :
  splitAndTrim str delimiter
  = Some (map JSString.trim (JSString.split str delimiter))
  /\ forall l, splitAndTrim str delimiter = Some l ->
       List.length l = List.length (JSString.split str delimiter).
Proof.
  assert (H : splitAndTrim str delimiter
              = Some (map JSString.trim (JSString.split str delimiter))).
  { unfold splitAndTrim. apply (trimLoop_maps (JSString.split str delimiter) []). }
  split; [exact H|]. intros l Hl. rewrite H in Hl. injection Hl as <-.
  apply length_map.
Qed.

Lemma trimStart_first (s : string) (c : ascii) (r : string) :
  JSString.trimStart s = String c r -> JSString.isWhite c = false.
Proof.
  induction s as [|d s IH]; cbn [JSString.trimStart]; [discriminate|].
  destruct (JSString.isWhite d) eqn:E; [exact IH|].
  intros [= <- _]. exact E.
Qed.

Lemma trimEnd_first (c : ascii) (r : string) :
  JSString.isWhite c = false ->
  exists r', JSString.trimEnd (String c r) = String c r'.
Proof.
  intros Hc. cbn [JSString.trimEnd]. rewrite Hc.
  destruct (JSString.trimEnd r); eauto.
Qed.

Lemma trimEnd_last (s p : string) (c : ascii) :
  JSString.trimEnd s = p ++ String c "" -> JSString.isWhite c = false.
Proof.
  revert p. induction s as [|d s IH]; intros p; cbn [JSString.trimEnd].
  - destruct p; discriminate.
  - destruct (JSString.trimEnd s) as [|e t] eqn:E.
    + destruct (JSString.isWhite d) eqn:Ed.
      * destruct p; discriminate.
      * destruct p as [|x p]; [intros [= <-]; exact Ed|].
        cbn [append]. intros [= _ H]. destruct p; discriminate.
    + destruct p as [|x p]; cbn [append]; [discriminate|].
      intros [= _ H]. apply (IH p). exact H.
Qed.

(** X13. No piece answered by [splitAndTrim] starts or ends with a white
    space character (space, tab, line feed, vertical tab, form feed,
    carriage return). *)
Theorem splitAndTrim_pieces_are_trimmed (str delimiter : string)
  (l : list string) (piece : string) :
  splitAndTrim str delimiter = Some l ->
  In piece l ->
  (forall c r, piece = String c r -> JSString.isWhite c = false)
  /\ (forall p c, piece = p ++ String c "" -> JSString.isWhite c = false).
Proof.
  intros Hl Hin.
  assert (H : splitAndTrim str delimiter
              = Some (map JSString.trim (JSString.split str delimiter))).
  { unfold splitAndTrim. apply (trimLoop_maps (JSString.split str delimiter) []). }
  rewrite H in Hl. injection Hl as <-.
  apply in_map_iff in Hin as (raw & <- & _). unfold JSString.trim. split.
  - intros c r Hp.
    destruct (JSString.trimStart raw) as [|d t] eqn:E; [discriminate Hp|].
    pose proof (trimStart_first raw d t E) as Hd.
    destruct (trimEnd_first d t Hd) as [r' Hr]. rewrite Hr in Hp.
    injection Hp as <- _. exact Hd.
  - intros p c Hp. apply (trimEnd_last _ p c Hp).
Qed.

Lemma splitAndTrim_pieces_are_trimmed_witness :
  (forall c r, "b c" = String c r -> JSString.isWhite c = false)
  /\ (forall p c, "b c" = p ++ String c "" -> JSString.isWhite c = false).
Proof.
  apply (splitAndTrim_pieces_are_trimmed (" a ,  b c" ++ JS.TAB ++ ", ") ","
           ["a"; "b c"; ""] "b c").
  - reflexivity.
  - right; left; reflexivity.
Defined.

Lemma prefix_char (c d : ascii) (r : string) :
  String.prefix (String c "") (String d r) = Ascii.eqb d c.
Proof.
  cbn [String.prefix]. destruct (ascii_dec c d) as [-> | Hn].
  - rewrite Ascii.eqb_refl. destruct r; reflexivity.
  - symmetry. apply Ascii.eqb_neq. congruence.
Qed.

Lemma chars_append (a b : string) : chars (a ++ b) = (chars a ++ chars b)%list.
Proof.
  unfold chars. induction a as [|c a IH]; [reflexivity|].
  cbn [append list_ascii_of_string app]. now rewrite IH.
Qed.

Lemma splitFrom_char (c : ascii) (s cur : string) :
  ~ In c (chars cur) ->
  List.length (JSString.splitFrom (String c "") s 0 cur) = S (countChar c s)
  /\ forall piece, In piece (JSString.splitFrom (String c "") s 0 cur) ->
       ~ In c (chars piece).
Proof.
  revert cur. induction s as [|d s IH]; intros cur Hcur.
  - split; [reflexivity|]. intros piece [<- | []]. exact Hcur.
  - cbn [JSString.splitFrom countChar]. rewrite prefix_char.
    destruct (Ascii.eqb_spec d c) as [-> | Hd].
    + cbn [String.length Nat.sub].
      destruct (IH "" (fun H => H)) as (Hl & Hp). split.
      * cbn [List.length]. now rewrite Hl.
      * intros piece [<- | H]; [exact Hcur | apply Hp, H].
    + apply IH. rewrite chars_append. intros H.
      apply in_app_or in H as [H | [H | []]]; [exact (Hcur H) | congruence].
Qed.

Lemma trimStart_chars (c : ascii) (s : string) :
  In c (chars (JSString.trimStart s)) -> In c (chars s).
Proof.
  induction s as [|d s IH]; [auto|]. cbn [JSString.trimStart].
  destruct (JSString.isWhite d); [|auto]. intros H. right. apply IH, H.
Qed.

Lemma trimEnd_chars (c : ascii) (s : string) :
  In c (chars (JSString.trimEnd s)) -> In c (chars s).
Proof.
  induction s as [|d s IH]; [auto|]. cbn [JSString.trimEnd].
  destruct (JSString.trimEnd s) as [|e t].
  - destruct (JSString.isWhite d); [intros [] | intros [-> | []]; left; reflexivity].
  - intros [-> | H]; [left; reflexivity | right; apply IH, H].
Qed.

(** X14. With a delimiter of one character, [splitAndTrim] answers one
    piece more than the text has delimiters (so at least one piece, and an
    empty piece for each delimiter that has nothing beside it), and no
    piece holds the delimiter. *)
Theorem splitAndTrim_one_character_delimiter
  (str delimiter : string) (c : ascii) :
  delimiter = String c "" ->
  exists l,
    splitAndTrim str delimiter = Some l
    /\ List.length l = S (countChar c str)
    /\ forall piece, In piece l -> ~ In c (chars piece).
Proof.
  intros ->. exists (map JSString.trim (JSString.split str (String c ""))).
  assert (H : splitAndTrim str (String c "")
              = Some (map JSString.trim (JSString.split str (String c "")))).
  { unfold splitAndTrim. apply (trimLoop_maps (JSString.split str (String c "")) []). }
  destruct (splitFrom_char c str "" (fun H => H)) as (Hl & Hp).
  split; [exact H|]. split.
  - rewrite length_map. exact Hl.
  - intros piece Hin. apply in_map_iff in Hin as (raw & <- & Hraw).
    intros Hc. apply (Hp raw Hraw).
    apply trimStart_chars, trimEnd_chars, Hc.
Qed.

Lemma splitAndTrim_one_character_delimiter_witness :
  exists l,
    splitAndTrim "a, ,b," "," = Some l
    /\ List.length l = 4%nat
    /\ forall piece, In piece l -> ~ In ","%char (chars piece).
Proof.
  apply (splitAndTrim_one_character_delimiter "a, ,b," "," ","%char). reflexivity.
Defined.

(** ** [resolveGetParam] *)

Section ResolveGetParamProperties.

Variable decode : string -> option string.
Variable param : string.

Lemma visitItem_eq (acc : option string) (item : string) :
  visitItem decode param acc item =
  match keyOf item with
  | Some key =>
      if String.eqb key param then
        match decode (valueOf item) with
        | Some v => Some (Some v)
        | None => None
        end
      else Some acc
  | None => Some acc
  end.
Proof. reflexivity. Qed.

Lemma visitItem_other (acc : option string) (item : string) :
  keyOf item <> Some param -> visitItem decode param acc item = Some acc.
Proof.
  intros H. rewrite visitItem_eq. destruct (keyOf item) as [key|]; [|reflexivity].
  destruct (String.eqb_spec key param); [congruence | reflexivity].
Qed.

Lemma visitItem_match (acc : option string) (item : string) :
  keyOf item = Some param ->
  visitItem decode param acc item = option_map Some (decode (valueOf item)).
Proof.
  intros H. rewrite visitItem_eq, H, String.eqb_refl.
  destruct (decode (valueOf item)); reflexivity.
Qed.

Lemma keyOf_dec (item : string) : {keyOf item = Some param} + {keyOf item <> Some param}.
Proof.
  destruct (keyOf item) as [key|]; [|right; discriminate].
  destruct (string_dec key param) as [-> | H]; [left; reflexivity | right; congruence].
Qed.

Lemma forEachItem_app (l1 l2 : list string) (acc : option string) :
  forEachItem decode param (l1 ++ l2) acc =
  match forEachItem decode param l1 acc with
  | Some a => forEachItem decode param l2 a
  | None => None
  end.
Proof.
  revert acc. induction l1 as [|x l1 IH]; intros acc; [reflexivity|].
  cbn [app forEachItem]. destruct (visitItem decode param acc x); [apply IH | reflexivity].
Qed.

Lemma forEachItem_null (items : list string) (acc : option string) :
  forEachItem decode param items acc = Some None <->
  acc = None /\ forall item, In item items -> keyOf item <> Some param.
Proof.
  revert acc. induction items as [|x items IH]; intros acc; cbn [forEachItem].
  - split; [intros [= ->]; split; [reflexivity | intros ? []] | intros [-> _]; reflexivity].
  - destruct (keyOf_dec x) as [Hx | Hx].
    + rewrite (visitItem_match acc x Hx).
      destruct (decode (valueOf x)) as [v|]; cbn [option_map].
      * rewrite IH. split; [intros [H _]; discriminate|].
        intros [_ H]. exfalso. exact (H x (or_introl eq_refl) Hx).
      * split; [discriminate|].
        intros [_ H]. exfalso. exact (H x (or_introl eq_refl) Hx).
    + rewrite (visitItem_other acc x Hx), IH. split; intros [Ha H]; split; auto.
      * intros item [<- | Hi]; [exact Hx | apply H, Hi].
      * intros item Hi. apply H. right. exact Hi.
Qed.

Lemma forEachItem_throws (items : list string) (acc : option string) :
  forEachItem decode param items acc = None <->
  exists item, In item items /\ keyOf item = Some param /\ decode (valueOf item) = None.
Proof.
  revert acc. induction items as [|x items IH]; intros acc; cbn [forEachItem].
  - split; [discriminate | intros (? & [] & _)].
  - destruct (keyOf_dec x) as [Hx | Hx].
    + rewrite (visitItem_match acc x Hx).
      destruct (decode (valueOf x)) as [v|] eqn:Ed; cbn [option_map].
      * rewrite IH. split; intros (item & Hi & Hk & Hd).
        -- exists item. split; [right; exact Hi | split; assumption].
        -- destruct Hi as [<- | Hi]; [congruence|]. exists item. auto.
      * split; [|reflexivity]. intros _. exists x. split; [left; reflexivity | auto].
    + rewrite (visitItem_other acc x Hx), IH. split; intros (item & Hi & Hk & Hd).
      * exists item. split; [right; exact Hi | split; assumption].
      * destruct Hi as [<- | Hi]; [congruence|]. exists item. auto.
Qed.

Lemma forEachItem_no_match (items : list string) (acc : option string) :
  (forall item, In item items -> keyOf item <> Some param) ->
  forEachItem decode param items acc = Some acc.
Proof.
  revert acc. induction items as [|x items IH]; intros acc H; [reflexivity|].
  cbn [forEachItem]. rewrite (visitItem_other acc x (H x (or_introl eq_refl))).
  apply IH. intros item Hi. apply H. right. exact Hi.
Qed.

End ResolveGetParamProperties.

(** X15. [resolveGetParam] answers null exactly when no item of the query
    has the parameter as the text before its first equals sign.  Items of
    other names are never decoded, so they cannot make the call throw. *)
Theorem resolveGetParam_null_iff_absent
  (search : string) (decode : string -> option string) (param : string) :
  resolveGetParam search decode param = Some None <->
  forall item, In item (queryItems search) -> keyOf item <> Some param.
Proof.
  unfold resolveGetParam. rewrite forEachItem_null. tauto.
Qed.

(** X16. [resolveGetParam] throws exactly when some item of the query
    named as the parameter has a value that [decodeURIComponent] refuses,
    wherever that item stands, also before a later item of the same name
    that is well formed. *)
Theorem resolveGetParam_throws_iff
  (search : string) (decode : string -> option string) (param : string) :
  resolveGetParam search decode param = None <->
  exists item,
    In item (queryItems search)
    /\ keyOf item = Some param
    /\ decode (valueOf item) = None.
Proof.
  unfold resolveGetParam. apply forEachItem_throws.
Qed.

(** X17. When the parameter occurs several times in the query, the last
    occurrence decides: the answer is its decoded value, provided no earlier
    occurrence makes the call throw. *)
Theorem resolveGetParam_last_occurrence_wins
  (search : string) (decode : string -> option string) (param : string)
  (before after : list string) (item : string) :
  queryItems search = (before ++ item :: after)%list ->
  keyOf item = Some param ->
  (forall other, In other after -> keyOf other <> Some param) ->
  (forall other, In other before -> keyOf other = Some param ->
     decode (valueOf other) <> None) ->
  resolveGetParam search decode param = option_map Some (decode (valueOf item)).
Proof.
  intros Hq Hk Hafter Hbefore. unfold resolveGetParam.
  rewrite Hq, forEachItem_app.
  destruct (forEachItem decode param before None) as [a|] eqn:E.
  - cbn [forEachItem]. rewrite (visitItem_match decode param a item Hk).
    destruct (decode (valueOf item)) as [v|]; [|reflexivity].
    cbn [option_map]. apply forEachItem_no_match, Hafter.
  - exfalso. apply forEachItem_throws in E as (other & Hi & Ho & Hd).
    exact (Hbefore other Hi Ho Hd).
Qed.

Lemma resolveGetParam_last_occurrence_wins_witness :
  resolveGetParam "?id=1&x=2&id=3&y" (fun s => Some s) "id" = Some (Some "3").
Proof.
  apply (resolveGetParam_last_occurrence_wins "?id=1&x=2&id=3&y" (fun s => Some s) "id"
           ["id=1"; "x=2"] ["y"] "id=3").
  - reflexivity.
  - reflexivity.
  - intros other [<- | []]. discriminate.
  - intros other _ _. discriminate.
Defined.

Lemma splitFrom_none (c : ascii) (s cur : string) :
  ~ In c (chars s) -> JSString.splitFrom (String c "") s 0 cur = [cur ++ s].
Proof.
  revert cur. induction s as [|d s IH]; intros cur H.
  - cbn. now rewrite append_nil_r.
  - cbn [JSString.splitFrom]. rewrite prefix_char.
    destruct (Ascii.eqb_spec d c) as [-> | Hd]; [exfalso; apply H; left; reflexivity|].
    rewrite IH by (intros Hi; apply H; right; exact Hi).
    now rewrite append_assoc.
Qed.

Lemma splitFrom_cut (c : ascii) (a b cur : string) :
  ~ In c (chars a) ->
  JSString.splitFrom (String c "") (a ++ String c b) 0 cur
  = (cur ++ a) :: JSString.splitFrom (String c "") b 0 "".
Proof.
  revert cur. induction a as [|d a IH]; intros cur H.
  - cbn [append JSString.splitFrom]. rewrite prefix_char, Ascii.eqb_refl.
    now rewrite append_nil_r.
  - cbn [append JSString.splitFrom]. rewrite prefix_char.
    destruct (Ascii.eqb_spec d c) as [-> | Hd]; [exfalso; apply H; left; reflexivity|].
    rewrite IH by (intros Hi; apply H; right; exact Hi).
    now rewrite append_assoc.
Qed.

Lemma substr_rest (c : ascii) (s : string) :
  JS.substr (String c s) 1 (JS.length (String c s)) = s.
Proof.
  unfold JS.substr, JS.length. cbn [String.length].
  replace (1 <? 0) with false by reflexivity.
  rewrite Z.min_l by lia. rewrite Z.max_l by lia. rewrite Z.min_r by lia.
  replace (Z.to_nat (Z.of_nat (S (String.length s)) - 1)) with (String.length s) by lia.
  change (Z.to_nat 1) with 1%nat. cbn [substring].
  rewrite <- (append_nil_r s) at 2. apply substring_prefix.
Qed.

(** X18. A query made of one item.  When the item is the bare name of the
    parameter, with no equals sign, the answer is what [decodeURIComponent]
    makes of the text [undefined], not null.  When the item has two equals
    signs or more, only the text between the first and the second is
    decoded: what follows the second equals sign is lost. *)
Theorem resolveGetParam_single_item
  (decode : string -> option string) (param value rest : string) :
  ~ In "&"%char (chars param) -> ~ In "="%char (chars param) ->
  ~ In "&"%char (chars value) -> ~ In "="%char (chars value) ->
  ~ In "&"%char (chars rest) ->
  resolveGetParam ("?" ++ param) decode param = option_map Some (decode "undefined")
  /\ resolveGetParam ("?" ++ param ++ "=" ++ value) decode param
     = option_map Some (decode value)
  /\ resolveGetParam ("?" ++ param ++ "=" ++ value ++ "=" ++ rest) decode param
     = option_map Some (decode value).
Proof.
  intros Hp1 Hp2 Hv1 Hv2 Hr.
  assert (Hone : forall item,
    ~ In "&"%char (chars item) -> keyOf item = Some param ->
    resolveGetParam ("?" ++ item) decode param = option_map Some (decode (valueOf item))).
  { intros item Hi Hk. unfold resolveGetParam, queryItems.
    change ("?" ++ item) with (String "?" item). rewrite substr_rest.
    change (JSString.split item "&") with (JSString.splitFrom "&" item 0 "").
    rewrite (splitFrom_none "&"%char item "" Hi). cbn [append forEachItem].
    rewrite (visitItem_match decode param None item Hk).
    destruct (decode (valueOf item)); reflexivity. }
  assert (Hamp : forall a b, ~ In "&"%char (chars a) -> ~ In "&"%char (chars b) ->
                 ~ In "&"%char (chars (a ++ "=" ++ b))).
  { intros a b Ha Hb. rewrite !chars_append. intros H.
    apply in_app_or in H as [H | H]; [exact (Ha H)|].
    apply in_app_or in H as [[H | []] | H]; [discriminate H | exact (Hb H)]. }
  split; [|split].
  - rewrite (Hone param Hp1).
    + unfold valueOf. change (JSString.split param "=")
        with (JSString.splitFrom "=" param 0 "").
      now rewrite (splitFrom_none "="%char param "" Hp2).
    + unfold keyOf. change (JSString.split param "=")
        with (JSString.splitFrom "=" param 0 "").
      now rewrite (splitFrom_none "="%char param "" Hp2).
  - rewrite (Hone (param ++ "=" ++ value) (Hamp _ _ Hp1 Hv1)).
    + unfold valueOf. change (JSString.split (param ++ "=" ++ value) "=")
        with (JSString.splitFrom "=" (param ++ String "=" value) 0 "").
      rewrite (splitFrom_cut "="%char param value "" Hp2).
      now rewrite (splitFrom_none "="%char value "" Hv2).
    + unfold keyOf. change (JSString.split (param ++ "=" ++ value) "=")
        with (JSString.splitFrom "=" (param ++ String "=" value) 0 "").
      now rewrite (splitFrom_cut "="%char param value "" Hp2).
  - rewrite (Hone (param ++ "=" ++ value ++ "=" ++ rest)
               (Hamp _ _ Hp1 (Hamp _ _ Hv1 Hr))).
    + unfold valueOf.
      change (JSString.split (param ++ "=" ++ value ++ "=" ++ rest) "=")
        with (JSString.splitFrom "=" (param ++ String "=" (value ++ String "=" rest)) 0 "").
      rewrite (splitFrom_cut "="%char param _ "" Hp2).
      now rewrite (splitFrom_cut "="%char value rest "" Hv2).
    + unfold keyOf.
      change (JSString.split (param ++ "=" ++ value ++ "=" ++ rest) "=")
        with (JSString.splitFrom "=" (param ++ String "=" (value ++ String "=" rest)) 0 "").
      now rewrite (splitFrom_cut "="%char param _ "" Hp2).
Qed.

Lemma resolveGetParam_single_item_witness :
  resolveGetParam "?debug" (fun s => Some s) "debug" = Some (Some "undefined")
  /\ resolveGetParam "?debug=on" (fun s => Some s) "debug" = Some (Some "on")
  /\ resolveGetParam "?debug=on=really" (fun s => Some s) "debug" = Some (Some "on").
Proof.
  apply (resolveGetParam_single_item (fun s => Some s) "debug" "on" "really");
    cbn; intuition discriminate.
Defined.

(** ** [deleteDatasource] *)

Lemma elementsByTagName_unfold (tag t : string) (path : list nat)
  (attrs : list Attr.t) (kids : list Xml) :
  elementsByTagName tag path (Elem t attrs kids)
  = ((if String.eqb t tag then [(path, Elem t attrs kids)] else [])
     ++ elementsBelow tag path 0 kids)%list.
Proof.
  cbn [elementsByTagName]. f_equal.
  generalize 0%nat. induction kids as [|k kids IH]; intros i; [reflexivity|].
  cbn [elementsBelow]. now rewrite IH.
Qed.

Lemma elementsBelow_app (tag : string) (path : list nat) (i : nat) (l1 l2 : list Xml) :
  elementsBelow tag path i (l1 ++ l2)
  = (elementsBelow tag path i l1
     ++ elementsBelow tag path (i + List.length l1) l2)%list.
Proof.
  revert i. induction l1 as [|k l1 IH]; intros i.
  - cbn. now rewrite Nat.add_0_r.
  - cbn [app elementsBelow List.length]. rewrite IH, <- app_assoc.
    now rewrite Nat.add_succ_r.
Qed.

Lemma elementsByTagName_path (tag : string) (x : Xml) :
  forall path,
    elementsByTagName tag path x
    = map (fun pc => ((path ++ fst pc)%list, snd pc)) (elementsByTagName tag [] x).
Proof.
  induction x as [t attrs kids IH | d | d] using Xml_kids_ind;
    [|reflexivity|reflexivity].
  intros path. rewrite !elementsByTagName_unfold, map_app. f_equal.
  - destruct (String.eqb t tag); [|reflexivity]. cbn. now rewrite app_nil_r.
  - generalize 0%nat. induction IH as [|k kids Hk _ IHk]; intros i; [reflexivity|].
    cbn [elementsBelow]. rewrite map_app, <- IHk. f_equal.
    rewrite (Hk (path ++ [i])%list), (Hk ([] ++ [i])%list), map_map.
    apply map_ext. intros [p c]. cbn. now rewrite <- app_assoc.
Qed.

Lemma elementsBelow_ids (tag : string) (id : string) (l : list Xml) :
  (forall k, In k l ->
     forall p c, In (p, c) (elementsByTagName tag [] k) -> idOf c <> id) ->
  forall path i pc, In pc (elementsBelow tag path i l) -> idOf (snd pc) <> id.
Proof.
  induction l as [|k l IH]; intros H path i pc; [intros []|].
  cbn [elementsBelow]. intros Hin. apply in_app_or in Hin as [Hin | Hin].
  - rewrite elementsByTagName_path in Hin.
    apply in_map_iff in Hin as ([p c] & <- & Hpc). cbn.
    apply (H k (or_introl eq_refl) p c Hpc).
  - apply (IH (fun k' Hk' => H k' (or_intror Hk')) path (S i) pc Hin).
Qed.

Lemma deleteFirst_skip (root : Xml) (id : string) (l1 l2 : list (list nat * Xml)) :
  (forall pc, In pc l1 -> idOf (snd pc) <> id) ->
  deleteFirst root (l1 ++ l2) id = deleteFirst root l2 id.
Proof.
  induction l1 as [|[p c] l1 IH]; intros H; [reflexivity|].
  cbn [app deleteFirst].
  destruct (String.eqb_spec (idOf c) id) as [E | _].
  - exfalso. exact (H (p, c) (or_introl eq_refl) E).
  - apply IH. intros pc Hpc. apply H. right. exact Hpc.
Qed.

Lemma removeAt_middle (before after : list Xml) (x : Xml) :
  removeAt (List.length before) (before ++ x :: after) = (before ++ after)%list.
Proof.
  induction before as [|k before IH]; [reflexivity|].
  cbn [List.length app removeAt]. now rewrite IH.
Qed.

(** X19. When no [config] element of the document has the identifier,
    [deleteDatasource] leaves the document as it is and does not throw. *)
Theorem deleteDatasource_absent_unchanged (root : Xml) (datasourceId : string) :
  noConfigWithId datasourceId root ->
  deleteDatasource root datasourceId = Some root.
Proof.
  intros H. unfold deleteDatasource.
  rewrite <- (app_nil_r (elementsByTagName "config" [] root)).
  rewrite deleteFirst_skip; [reflexivity|].
  intros [p c] Hpc. exact (H p c Hpc).
Qed.

Lemma deleteDatasource_absent_unchanged_witness :
  deleteDatasource
    (Elem "data" [] [Elem "config" [Attr.mk "id" "a"] []; Elem "query" [] []]) "b"
  = Some (Elem "data" [] [Elem "config" [Attr.mk "id" "a"] []; Elem "query" [] []]).
Proof.
  apply deleteDatasource_absent_unchanged.
  intros p c [[= <- <-] | []]. discriminate.
Defined.

Lemma deleteDatasource_at_child (t : string) (attrs : list Attr.t)
  (before after : list Xml) (k : Xml) (datasourceId : string) :
  ~ (t = "config" /\ idOfAttrs attrs = datasourceId) ->
  (forall b, In b before -> noConfigWithId datasourceId b) ->
  deleteDatasource (Elem t attrs (before ++ k :: after)) datasourceId
  = deleteFirst (Elem t attrs (before ++ k :: after))
      (map (fun pc => ((List.length before :: fst pc), snd pc))
           (elementsByTagName "config" [] k)
       ++ elementsBelow "config" [] (S (List.length before)) after)
      datasourceId.
Proof.
  intros Hroot Hbefore. unfold deleteDatasource.
  rewrite elementsByTagName_unfold, elementsBelow_app.
  rewrite deleteFirst_skip.
  - rewrite deleteFirst_skip by (apply elementsBelow_ids; exact Hbefore).
    cbn [elementsBelow Nat.add app].
    rewrite (elementsByTagName_path "config" k [List.length before]).
    reflexivity.
  - intros pc Hpc. destruct (String.eqb_spec t "config") as [-> | _]; [|destruct Hpc].
    destruct Hpc as [<- | []]. cbn. intros E. apply Hroot. split; [reflexivity | exact E].
Qed.

(** X20. When the first [config] element with the identifier, in document
    order, is a child of the document element, [deleteDatasource] removes
    that child and nothing else: the other children keep their order, and
    a later [config] with the same identifier stays. *)
Theorem deleteDatasource_removes_first_child
  (t : string) (attrs : list Attr.t) (before after : list Xml)
  (cattrs : list Attr.t) (ckids : list Xml) (datasourceId : string) :
  ~ (t = "config" /\ idOfAttrs attrs = datasourceId) ->
  (forall b, In b before -> noConfigWithId datasourceId b) ->
  idOfAttrs cattrs = datasourceId ->
  deleteDatasource (Elem t attrs (before ++ Elem "config" cattrs ckids :: after))
    datasourceId
  = Some (Elem t attrs (before ++ after)).
Proof.
  intros Hroot Hbefore Hid.
  rewrite (deleteDatasource_at_child t attrs before after _ datasourceId Hroot Hbefore).
  rewrite elementsByTagName_unfold. cbn [String.eqb Ascii.eqb Bool.eqb app map fst snd].
  cbn [deleteFirst idOf]. rewrite Hid, String.eqb_refl.
  cbn [removeChild]. now rewrite removeAt_middle.
Qed.

Lemma deleteDatasource_removes_first_child_witness :
  deleteDatasource
    (Elem "data" []
       [Text " "; Elem "config" [Attr.mk "id" "a"] [];
        Elem "config" [Attr.mk "id" "b"] []; Elem "config" [Attr.mk "id" "b"] []])
    "b"
  = Some (Elem "data" []
            [Text " "; Elem "config" [Attr.mk "id" "a"] [];
             Elem "config" [Attr.mk "id" "b"] []]).
Proof.
  apply (deleteDatasource_removes_first_child "data" []
           [Text " "; Elem "config" [Attr.mk "id" "a"] []]
           [Elem "config" [Attr.mk "id" "b"] []] [Attr.mk "id" "b"] [] "b").
  - intros [H _]. discriminate H.
  - intros b [<- | [<- | []]] p c.
    + intros [].
    + intros [[= <- <-] | []]. discriminate.
  - reflexivity.
Defined.

Lemma elementsBelow_paths (tag : string) (l : list Xml) :
  forall path i p c, In (p, c) (elementsBelow tag path i l) ->
  exists j q, p = (path ++ j :: q)%list.
Proof.
  induction l as [|k l IH]; intros path i p c; [intros []|].
  cbn [elementsBelow]. intros H. apply in_app_or in H as [H | H].
  - rewrite elementsByTagName_path in H.
    apply in_map_iff in H as ([q c'] & [= <- <-] & _). cbn.
    exists i, q. now rewrite <- app_assoc.
  - apply (IH path (S i) p c H).
Qed.

Lemma elementsByTagName_root_entry (tag t : string) (attrs : list Attr.t)
  (kids : list Xml) (c : Xml) :
  In ([], c) (elementsByTagName tag [] (Elem t attrs kids)) ->
  t = tag /\ c = Elem t attrs kids.
Proof.
  rewrite elementsByTagName_unfold. intros H. apply in_app_or in H as [H | H].
  - destruct (String.eqb_spec t tag) as [-> | _]; [|destruct H].
    destruct H as [[= <-] | []]. split; reflexivity.
  - destruct (elementsBelow_paths tag kids [] 0 [] c H) as (j & q & E). discriminate E.
Qed.

Lemma deleteFirst_deep (root : Xml) (id : string) (l l2 : list (list nat * Xml)) :
  (forall pc, In pc l -> idOf (snd pc) = id -> List.length (fst pc) <> 1%nat) ->
  (exists pc, In pc l /\ idOf (snd pc) = id) ->
  deleteFirst root (l ++ l2) id = None.
Proof.
  induction l as [|[p c] l IH]; intros Hdeep (pc & Hin & Hid); [destruct Hin|].
  cbn [app deleteFirst]. destruct (String.eqb_spec (idOf c) id) as [E | E].
  - pose proof (Hdeep (p, c) (or_introl eq_refl) E) as Hp. cbn in Hp.
    unfold removeChild. destruct root; [|reflexivity|reflexivity].
    destruct p as [|i [|j q]]; [reflexivity | contradiction | reflexivity].
  - apply IH.
    + intros pc' Hpc'. apply Hdeep. right. exact Hpc'.
    + destruct Hin as [<- | Hin]; [contradiction|]. exists pc. auto.
Qed.

(** X21. [deleteDatasource] throws when the first [config] element with
    the identifier, in document order, is not a child of the document
    element: when it is the document element itself, or when it lies deeper
    inside a child.  In the second case it throws also if a later child of
    the document element is a [config] with that identifier. *)
Theorem deleteDatasource_throws_unless_child
  (t : string) (attrs : list Attr.t) (kids before after : list Xml)
  (t' : string) (attrs' : list Attr.t) (kids' : list Xml) (datasourceId : string) :
  (t = "config" -> idOfAttrs attrs = datasourceId ->
   deleteDatasource (Elem t attrs kids) datasourceId = None)
  /\ (~ (t = "config" /\ idOfAttrs attrs = datasourceId) ->
      (forall b, In b before -> noConfigWithId datasourceId b) ->
      ~ (t' = "config" /\ idOfAttrs attrs' = datasourceId) ->
      ~ noConfigWithId datasourceId (Elem t' attrs' kids') ->
      deleteDatasource (Elem t attrs (before ++ Elem t' attrs' kids' :: after))
        datasourceId
      = None).
Proof.
  split.
  - intros -> Hid. unfold deleteDatasource. rewrite elementsByTagName_unfold.
    cbn [String.eqb Ascii.eqb Bool.eqb app deleteFirst idOf].
    now rewrite Hid, String.eqb_refl.
  - intros Hroot Hbefore Hk Hinside.
    rewrite (deleteDatasource_at_child t attrs before after _ datasourceId Hroot Hbefore).
    apply deleteFirst_deep.
    + intros pc Hpc Hid. apply in_map_iff in Hpc as ([p c] & <- & Hin). cbn in *.
      destruct p as [|j q]; [|discriminate].
      destruct (elementsByTagName_root_entry _ _ _ _ _ Hin) as (-> & ->).
      exfalso. apply Hk. split; [reflexivity | exact Hid].
    + assert (Hex : exists p c,
        In (p, c) (elementsByTagName "config" [] (Elem t' attrs' kids'))
        /\ idOf c = datasourceId).
      { clear - Hinside. unfold noConfigWithId in Hinside.
        induction (elementsByTagName "config" [] (Elem t' attrs' kids')) as [|[p c] l IH].
        - exfalso. apply Hinside. intros p c [].
        - destruct (string_dec (idOf c) datasourceId) as [E | E].
          + exists p, c. split; [left; reflexivity | exact E].
          + destruct IH as (p' & c' & Hin & Hid).
            * intros H. apply Hinside. intros p' c' [[= <- <-] | Hin]; [exact E|].
              apply (H p' c' Hin).
            * exists p', c'. split; [right; exact Hin | exact Hid]. }
      destruct Hex as (p & c & Hin & Hid).
      exists (List.length before :: p, c). split; [|exact Hid].
      apply in_map_iff. exists (p, c). split; [reflexivity | exact Hin].
Qed.

Lemma deleteDatasource_throws_unless_child_witness :
  deleteDatasource (Elem "config" [Attr.mk "id" "b"] []) "b" = None
  /\ deleteDatasource
       (Elem "data" []
          [Elem "query" [] [Elem "config" [Attr.mk "id" "b"] []];
           Elem "config" [Attr.mk "id" "b"] []])
       "b"
     = None.
Proof.
  destruct (deleteDatasource_throws_unless_child "config" [Attr.mk "id" "b"] []
              [] [] "x" [] [] "b") as (H1 & _).
  destruct (deleteDatasource_throws_unless_child "data" [] []
              [] [Elem "config" [Attr.mk "id" "b"] []]
              "query" [] [Elem "config" [Attr.mk "id" "b"] []] "b") as (_ & H2).
  split; [exact (H1 eq_refl eq_refl)|].
  apply H2.
  - intros [H _]. discriminate H.
  - intros b [].
  - intros [H _]. discriminate H.
  - intros H. apply (H [0%nat] (Elem "config" [Attr.mk "id" "b"] [])); [|reflexivity].
    left; reflexivity.
Defined.

(** ** The renderer on a host without [children] *)

(** X22. On a host whose elements have no [children] accessor, every node is
    classified as having no children.  So an element whose aggregated text
    is not blank is rendered as a leaf with a value even when it has child
    elements: the call appends the start tag and the whole aggregated text,
    then visits every child node one level deeper, then appends the end tag
    with no indentation before it. *)
Theorem without_children_accessor_every_element_is_a_leaf
  (e : Node) (b : BuildInfo) (tag : string) :
  children e = None ->
  tagName e = Some tag ->
  nonBlank (textContent e) = true ->
  elementHasNoChildren e = true
  /\ elementHasItsValue e = true
  /\ _parseInternally e b =
     match childNodes e with
     | None => None
     | Some l =>
         option_map
           (fun b2 => emit ("</" ++ tag ++ ">" ++ JS.LF) (shiftLevel (-1) b2))
           (parseChildren l
              (shiftLevel 1
                 (emit (indentOf b ++ "<" ++ tag ++ attributesText (attributes e)
                        ++ ">"
                        ++ (if hasCDataMarkers (innerMarkup e)
                            then "<![CDATA[" ++ textContent e ++ "]]>"
                            else textContent e)) b)))
     end.
Proof.
  intros Hc Ht Hn.
  assert (Hno : elementHasNoChildren e = true).
  { unfold elementHasNoChildren. now rewrite Hc. }
  assert (Hv : elementHasItsValue e = true).
  { unfold elementHasItsValue. now rewrite Hno, hasValue_nonBlank, Hn. }
  split; [exact Hno|]. split; [exact Hv|].
  rewrite (valued_leaf_unfold e b tag Ht Hv).
  unfold chElementsOf. rewrite Hc.
  unfold valueOfElement. rewrite Hv.
  destruct (hasItsValue_text e Hv) as (_ & _ & _ & ->). reflexivity.
Qed.

Lemma without_children_accessor_every_element_is_a_leaf_witness :
  elementHasNoChildren (Legacy.dom abcXml) = true
  /\ beautify (fun _ => Legacy.document abcXml) "<a><b><c>x</c></b></a>" None
     = Some ("<a>x  <b>x    <c>x      </c>" ++ JS.LF ++ "</b>" ++ JS.LF
             ++ "</a>" ++ JS.LF).
Proof.
  destruct (without_children_accessor_every_element_is_a_leaf
              (Legacy.dom abcXml) (mkBuildInfo "  " "" false 0) "a"
              eq_refl eq_refl eq_refl) as (H1 & _ & H3).
  split; [exact H1|].
  unfold beautify. cbn [Legacy.document doc_children doc_childNodes first].
  change (chosenIndent None) with "  ". change (chosenSelfClosing None) with false.
  rewrite H3. reflexivity.
Defined.
